(** * arboEL: scripts/prepare_data/run.py

    A shallow embedding of the data-preparation script that turns
    BigBio-style pages into BLINK-style mention records
    ([_transform_pages]) and builds the terminology dictionary
    ([prepare_dictionary_from_umls]), together with the properties its
    specification states about them.

    Conventions of the embedding:
    - a Python [str] is a Rocq [string], one character per code point
      (code points below 256); offsets count characters;
    - a Python [dict] used as a lookup table is a [gmap]; a key read with
      [d.get(k)] is an [option] field, a key read with [d[k]] is a plain
      field of the record;
    - a Python exception is the [Raise] branch of [result]. *)

From Stdlib Require Import ZArith Lia.
From stdpp Require Import gmap strings list fin_maps pretty sorting.

Local Open Scope Z_scope.
Local Open Scope nat_scope.

(** ** Exceptions *)

Inductive exn : Type :=
| KeyError
| IndexError.

Inductive result (A : Type) : Type :=
| Ok (a : A)
| Raise (e : exn).
Arguments Ok {A} a.
Arguments Raise {A} e.

Definition bind {A B : Type} (r : result A) (k : A → result B) : result B :=
  match r with
  | Ok a => k a
  | Raise e => Raise e
  end.

Notation "x ←! r ; k" := (bind r (fun x => k))
  (at level 20, r at level 100, k at level 200, right associativity,
   format "x  ←!  r ;  '/' k").

(** [d[k]] on a dict and [l[i]] on a list. *)
Definition dict_getitem {V : Type} (d : gmap string V) (k : string) : result V :=
  match d !! k with
  | Some v => Ok v
  | None => Raise KeyError
  end.

Definition list_getitem {A : Type} (l : list A) (i : nat) : result A :=
  match l !! i with
  | Some x => Ok x
  | None => Raise IndexError
  end.

(** [[f(x) for x in l]] where [f] may raise. *)
Fixpoint list_comprehension {A B : Type} (f : A → result B) (l : list A)
  : result (list B) :=
  match l with
  | [] => Ok []
  | x :: l' =>
      y ←! f x;
      ys ←! list_comprehension f l';
      Ok (y :: ys)
  end.

(** ** Python string primitives *)

Module PyStr.

(** [str.isspace] on one character, for the code points below 256. *)
Definition isspace (c : Ascii.ascii) : bool :=
  let n := Ascii.N_of_ascii c in
  ((9 <=? n) && (n <=? 13) || (28 <=? n) && (n <=? 32)
   || (n =? 133) || (n =? 160))%N.

(** [sep.join(l)] *)
Definition join (sep : string) (l : list string) : string :=
  String.concat sep l.

Fixpoint take (n : nat) (s : string) : string :=
  match n, s with
  | S n', String c s' => String c (take n' s')
  | _, _ => EmptyString
  end.

Fixpoint drop (n : nat) (s : string) : string :=
  match n, s with
  | S n', String _ s' => drop n' s'
  | _, _ => s
  end.

(** The position a slice bound [i] denotes in a sequence of length
    [len]: a negative bound counts from the end, and every bound is
    clamped to [0..len]. *)
Definition slice_bound (len : nat) (i : Z) : nat :=
  if (i <? 0)%Z then Z.to_nat (Z.max 0 (Z.of_nat len + i))
  else Z.to_nat (Z.min i (Z.of_nat len)).

(** [s[:i]], [s[i:]] and [s[i:j]] *)
Definition slice_to (s : string) (i : Z) : string :=
  take (slice_bound (String.length s) i) s.

Definition slice_from (s : string) (i : Z) : string :=
  drop (slice_bound (String.length s) i) s.

Definition slice (s : string) (i j : Z) : string :=
  let a := slice_bound (String.length s) i in
  let b := slice_bound (String.length s) j in
  take (b - a) (drop a s).

Fixpoint lstrip (s : string) : string :=
  match s with
  | EmptyString => EmptyString
  | String c s' => if isspace c then lstrip s' else s
  end.

Fixpoint rstrip (s : string) : string :=
  match s with
  | EmptyString => EmptyString
  | String c s' =>
      match rstrip s' with
      | EmptyString => if isspace c then EmptyString else String c EmptyString
      | r => String c r
      end
  end.

(** [s.strip()] *)
Definition strip (s : string) : string := lstrip (rstrip s).

(** A string made of whitespace only. *)
Fixpoint blank (s : string) : bool :=
  match s with
  | EmptyString => true
  | String c s' => isspace c && blank s'
  end.

End PyStr.

(** ** Data model *)

(** One row of the semantic reference table [semantic_info]. *)
Module SemanticInfo.
Record row : Type := Row {
  CATEGORY : string;
  SEM_CODE : string;
  GROUP : string
}.
End SemanticInfo.

(** The value stored in [umls_info[group][cui]]. *)
Record ConceptInfo : Type := {
  title : string;
  description : string
}.

(** One element of [entity["normalized"]]. *)
Record NormalizedRef : Type := {
  db_name : string;
  db_id : string
}.

Module Entity.
Record t : Type := mk {
  normalized : option (list NormalizedRef);
  text : option (list string);
  type : option string;
  offsets : option (list (list Z))
}.
End Entity.

Module Passage.
Record t : Type := mk {
  text : list string
}.
End Passage.

Module Page.
Record t : Type := mk {
  document_id : string;
  passages : option (list Passage.t);
  entities : option (list Entity.t)
}.
End Page.

(** The BLINK-style mention dict built at the end of the entity loop. *)
Record MentionRecord : Type := {
  mention : string;
  mention_id : string;
  context_left : string;
  context_right : string;
  context_doc_id : string;
  type : string;
  label_id : string;
  label : string;
  label_title : string
}.

(** Why the loop body reached a [continue], or the record it appended. *)
Inductive skip_reason : Type :=
| NoCui
| UnknownGroup
| GroupNotInUmls
| CuiNotInGroup.

Inductive outcome : Type :=
| Skipped (why : skip_reason)
| Emitted (r : MentionRecord).

(** ** [_transform_pages] *)

(** [cat_to_group] and [sem_to_group]: dict comprehensions over the rows
    of [semantic_info], a later row overwriting an earlier one. *)
Definition cat_to_group (semantic_info : list SemanticInfo.row)
  : gmap string string :=
  foldl (λ d row, <[SemanticInfo.CATEGORY row := SemanticInfo.GROUP row]> d)
        ∅ semantic_info.

Definition sem_to_group (semantic_info : list SemanticInfo.row)
  : gmap string string :=
  foldl (λ d row, <[SemanticInfo.SEM_CODE row := SemanticInfo.GROUP row]> d)
        ∅ semantic_info.

(** [x in d.values()] *)
Definition in_values (x : string) (d : gmap string string) : bool :=
  bool_decide (x ∈ (map_to_list d).*2).

(** [x in d.keys()] *)
Definition in_keys {V : Type} (x : string) (d : gmap string V) : bool :=
  bool_decide (is_Some (d !! x)).

(** Lines 103-104: [if corrected_code and cui in corrected_code]. *)
Definition correct_cui (corrected_code : option (gmap string string))
    (cui : string) : string :=
  match corrected_code with
  | Some d => match d !! cui with Some cui' => cui' | None => cui end
  | None => cui
  end.

(** Lines 114-122: the group read off the entity's raw type.  An entity
    without a type has [entity_type = None], which is in no dict. *)
Definition type_group (c2g s2g : gmap string string)
    (entity_type : option string) : string :=
  match entity_type with
  | Some ty =>
      if in_values ty c2g then ty
      else match c2g !! ty with
           | Some g => g
           | None =>
               match s2g !! ty with
               | Some g => g
               | None => "Unknown"
               end
           end
  | None => "Unknown"
  end.

(** Lines 111-124: "Determine group". *)
Definition determine_group (c2g s2g : gmap string string)
    (groups : list string) (entity_type : option string) : string :=
  match groups with
  | [g] => g
  | _ =>
      let group := type_group c2g s2g entity_type in
      match groups with
      | g0 :: _ => if bool_decide (group ∈ groups) then group else g0
      | [] => group
      end
  end.

(** Lines 149-151: the character span of the mention. *)
Definition start_index (offsets : list (list Z)) : result Z :=
  match offsets with
  | o :: _ => match o with [] => Ok 0%Z | _ => list_getitem o 0 end
  | [] => Ok 0%Z
  end.

Definition end_index (offsets : list (list Z)) : result Z :=
  match last offsets with
  | Some o => match o with [] => Ok 0%Z | _ => list_getitem o 1 end
  | None => Ok 0%Z
  end.

Section TransformPages.

Variable umls_info : gmap string (gmap string ConceptInfo).
Variable semantic_info : list SemanticInfo.row.
Variable cui_to_groups : gmap string (list string).
Variable corrected_code : option (gmap string string).

(** Lines 94-165: the body of the entity loop up to the record.  The
    logging calls are left out; the reason of a [continue] is kept in
    the outcome. *)
Definition transform_entity (document_id all_text : string)
    (entity_id : nat) (entity : Entity.t) : result outcome :=
  match Entity.normalized entity with
  | None | Some [] => Ok (Skipped NoCui)
  | Some (n0 :: _) =>
      let cui := correct_cui corrected_code (db_id n0) in
      let entity_type := Entity.type entity in
      let groups := default [] (cui_to_groups !! cui) in
      let group :=
        determine_group (cat_to_group semantic_info)
          (sem_to_group semantic_info) groups entity_type in
      if bool_decide (group = "Unknown") then Ok (Skipped UnknownGroup)
      else if negb (in_keys group umls_info) then Ok (Skipped GroupNotInUmls)
      else
        concepts ←! dict_getitem umls_info group;
        if negb (in_keys cui concepts) then Ok (Skipped CuiNotInGroup)
        else
          info ←! (concepts ←! dict_getitem umls_info group;
                   dict_getitem concepts cui);
          let label := description info in
          info' ←! (concepts ←! dict_getitem umls_info group;
                    dict_getitem concepts cui);
          let label_title := title info' in
          let offsets := default [] (Entity.offsets entity) in
          start ←! start_index offsets;
          stop ←! end_index offsets;
          Ok (Emitted {|
            mention :=
              PyStr.strip (PyStr.join " " (default [] (Entity.text entity)));
            mention_id := document_id +:+ "." +:+ pretty entity_id;
            context_left := PyStr.strip (PyStr.slice_to all_text start);
            context_right := PyStr.strip (PyStr.slice_from all_text stop);
            context_doc_id := document_id;
            type := group;
            label_id := cui;
            label := label;
            label_title := label_title
          |})
  end.

(** Lines 93-167: the entity loop, threading [entity_id] and the
    list [blink_mentions] it appends to. *)
Fixpoint entity_loop (document_id all_text : string)
    (entities : list Entity.t) (entity_id : nat)
    (blink_mentions : list MentionRecord)
  : result (nat * list MentionRecord) :=
  match entities with
  | [] => Ok (entity_id, blink_mentions)
  | entity :: rest =>
      o ←! transform_entity document_id all_text entity_id entity;
      match o with
      | Skipped _ =>
          entity_loop document_id all_text rest entity_id blink_mentions
      | Emitted r =>
          entity_loop document_id all_text rest (S entity_id)
            (blink_mentions ++ [r])
      end
  end.

(** Lines 89-91: the text the offsets point into. *)
Definition all_text (page : Page.t) : result string :=
  frags ←! list_comprehension (λ passage, list_getitem (Passage.text passage) 0)
              (default [] (Page.passages page));
  Ok (PyStr.join " " frags).

(** Lines 88-167: the body of the page loop. *)
Definition transform_page (page : Page.t)
    (blink_mentions : list MentionRecord) : result (list MentionRecord) :=
  let document_id := Page.document_id page in
  txt ←! all_text page;
  st ←! entity_loop document_id txt (default [] (Page.entities page)) 1
          blink_mentions;
  Ok (st.2).

Fixpoint page_loop (pages : list Page.t)
    (blink_mentions : list MentionRecord) : result (list MentionRecord) :=
  match pages with
  | [] => Ok blink_mentions
  | page :: rest =>
      blink_mentions' ←! transform_page page blink_mentions;
      page_loop rest blink_mentions'
  end.

Definition _transform_pages (pages : list Page.t)
  : result (list MentionRecord) :=
  page_loop pages [].

End TransformPages.

(** ** [prepare_dictionary_from_umls] *)

(** One row of the concept table [all_disambiguated.parquet], read after
    the renaming of [SNOMED_code] into [CUI]; only the four columns the
    function uses. *)
Module Umls.
Record row : Type := Row {
  CUI : string;
  Title : string;
  GROUP : string;
  Entity : string
}.
Definition key (r : row) : string * string * string :=
  (CUI r, Title r, GROUP r).
End Umls.

(** A row after [group_by(...).agg(pl.col("Entity").unique())]. *)
Module Grouped.
Record row : Type := Row {
  CUI : string;
  Title : string;
  GROUP : string;
  Entity : list string
}.
Definition key (r : row) : string * string * string :=
  (CUI r, Title r, GROUP r).
End Grouped.

(** A row after [with_columns(description=...)] and [drop("Entity")]. *)
Module Described.
Record row : Type := Row {
  CUI : string;
  Title : string;
  GROUP : string;
  description : string
}.
End Described.

(** A row after the final renaming: one dict of the returned list. *)
Module Dictionary.
Record entry : Type := Entry {
  cui : string;
  title : string;
  description : string;
  type : string
}.
Definition key (e : entry) : string * string * string :=
  (cui e, title e, type e).
End Dictionary.

(** The values of a list in the order of their first occurrence. *)
Fixpoint first_seen {A : Type} `{EqDecision A} (l : list A) : list A :=
  match l with
  | [] => []
  | x :: l' => x :: filter (λ y, y ≠ x) (first_seen l')
  end.

(** The order [sort("GROUP", "CUI")] establishes: by group, then by
    concept id, strings compared character by character. *)
Definition sort_key_le (a b : Grouped.row) : Prop :=
  String.le (Grouped.GROUP a) (Grouped.GROUP b)
  ∧ (Grouped.GROUP a = Grouped.GROUP b →
     String.le (Grouped.CUI a) (Grouped.CUI b)).

(** The three data-frame operations whose row order the function relies
    on, with what the library promises about them when, as here,
    [maintain_order] is not requested: [group_by] yields each distinct
    key once, [unique] yields each distinct value once, [sort] orders
    the rows by the sort columns; the order of the groups, of the unique
    values, and of rows with equal sort keys is the library's choice. *)
Record polars : Type := MkPolars {
  group_order : list (string * string * string)
                → list (string * string * string);
  group_order_NoDup : ∀ keys, NoDup (group_order keys);
  group_order_elem : ∀ keys k, k ∈ group_order keys ↔ k ∈ keys;
  unique : list string → list string;
  unique_NoDup : ∀ l, NoDup (unique l);
  unique_elem : ∀ l x, x ∈ unique l ↔ x ∈ l;
  sort : list Grouped.row → list Grouped.row;
  sort_Permutation : ∀ l, sort l ≡ₚ l;
  sort_Sorted : ∀ l, Sorted sort_key_le (sort l)
}.

(** The [Entity] values of the rows of one group, in row order. *)
Definition group_values (df : list Umls.row) (k : string * string * string)
  : list string :=
  Umls.Entity <$> filter (λ r, Umls.key r = k) df.

(** Lines 23-27. *)
Definition group_by_agg_sort (pl : polars) (df : list Umls.row)
  : list Grouped.row :=
  sort pl
    ((λ k, Grouped.Row k.1.1 k.1.2 k.2 (unique pl (group_values df k)))
       <$> group_order pl (Umls.key <$> df)).

(** Lines 28-36. *)
Definition with_description (r : Grouped.row) : Described.row :=
  Described.Row (Grouped.CUI r) (Grouped.Title r) (Grouped.GROUP r)
    (((((Grouped.Title r +:+ " ( ") +:+ Grouped.GROUP r) +:+ " : ")
        +:+ PyStr.join " ; " (Grouped.Entity r)) +:+ " )").

(** Lines 39-48: [records[row["GROUP"]][row["CUI"]] = {...}] on a
    [defaultdict(dict)], row after row. *)
Definition nested_records (rows : list Described.row)
  : gmap string (gmap string ConceptInfo) :=
  foldl (λ records row,
           <[Described.GROUP row :=
               <[Described.CUI row :=
                   {| title := Described.Title row;
                      description := Described.description row |}]>
                 (default ∅ (records !! Described.GROUP row))]> records)
        ∅ rows.

(** Lines 56-64. *)
Definition rename (r : Described.row) : Dictionary.entry :=
  Dictionary.Entry (Described.CUI r) (Described.Title r)
    (Described.description r) (Described.GROUP r).

(** The function, as the pair of the nested dict it pickles into
    [umls_info_encoder.pkl] and the list it returns. *)
Definition prepare_dictionary_from_umls (pl : polars) (df : list Umls.row)
  : gmap string (gmap string ConceptInfo) * list Dictionary.entry :=
  let umls_df := with_description <$> group_by_agg_sort pl df in
  (nested_records umls_df, rename <$> umls_df).

(** ** Vocabulary of the specification *)

(** The concept id the loop works with for an entity: the [db_id] of its
    first normalized reference, after the correction. *)
Definition entity_cui (corrected_code : option (gmap string string))
    (entity : Entity.t) : option string :=
  match Entity.normalized entity with
  | Some (n0 :: _) => Some (correct_cui corrected_code (db_id n0))
  | _ => None
  end.

(** [cui_to_groups.get(cui, [])] *)
Definition candidate_groups (cui_to_groups : gmap string (list string))
    (cui : string) : list string :=
  default [] (cui_to_groups !! cui).

(** The same entity with another raw type, text or normalized list. *)
Definition with_type (ty : option string) (e : Entity.t) : Entity.t :=
  Entity.mk (Entity.normalized e) (Entity.text e) ty (Entity.offsets e).


Definition with_entities (es : option (list Entity.t)) (page : Page.t)
  : Page.t :=
  Page.mk (Page.document_id page) (Page.passages page) es.



(** A valid group name: a group some category code maps to. *)
Definition is_group_name (c2g : gmap string string) (g : string) : Prop :=
  ∃ code, c2g !! code = Some g.

(** Section 4.3, step c, second bullet, as the specification words it:
    the four type-based rules, in priority order. *)
Inductive type_heuristic (c2g s2g : gmap string string)
  : option string → string → Prop :=
| by_group_name ty :
    is_group_name c2g ty →
    type_heuristic c2g s2g (Some ty) ty
| by_category ty g :
    ¬ is_group_name c2g ty → c2g !! ty = Some g →
    type_heuristic c2g s2g (Some ty) g
| by_semantic_type ty g :
    ¬ is_group_name c2g ty → c2g !! ty = None → s2g !! ty = Some g →
    type_heuristic c2g s2g (Some ty) g
| by_default raw :
    (∀ ty, raw = Some ty →
       ¬ is_group_name c2g ty ∧ c2g !! ty = None ∧ s2g !! ty = None) →
    type_heuristic c2g s2g raw "Unknown".




(** Section 3 and section 4.1, as the specification words them: the
    description of a triple lists its distinct category labels in the
    order first encountered. *)
Definition spec_description (df : list Umls.row)
    (k : string * string * string) : string :=
  k.1.2 +:+ " ( " +:+ k.2 +:+ " : "
    +:+ PyStr.join " ; " (first_seen (group_values df k)) +:+ " )".

(** ** Two data-frame libraries *)

Module Polars.

Lemma first_seen_elem {A : Type} `{EqDecision A} (l : list A) (x : A) :
  x ∈ first_seen l ↔ x ∈ l.
Proof.
  induction l as [|y l IH]; simpl; [done|].
  rewrite !elem_of_cons, list_elem_of_filter, IH.
  destruct (decide (x = y)) as [->|Hne]; [split; auto|].
  split; [intros [?|[_ ?]]; auto | intros [?|?]; auto].
Qed.

Lemma first_seen_NoDup {A : Type} `{EqDecision A} (l : list A) :
  NoDup (first_seen l).
Proof.
  induction l as [|y l IH]; simpl; [constructor|].
  constructor; [|by apply NoDup_filter].
  rewrite list_elem_of_filter. intros [Hne _]. by apply Hne.
Qed.

#[global] Instance sort_key_le_dec : RelDecision sort_key_le.
Proof. intros a b. unfold sort_key_le. apply _. Defined.

#[global] Instance sort_key_le_total : Total sort_key_le.
Proof.
  intros a b. unfold sort_key_le.
  destruct (total String.le (Grouped.GROUP a) (Grouped.GROUP b)) as [Hab|Hba].
  - destruct (decide (Grouped.GROUP a = Grouped.GROUP b)) as [Heq|Hne].
    + destruct (total String.le (Grouped.CUI a) (Grouped.CUI b)).
      * left. done.
      * right. rewrite Heq. done.
    + left. done.
  - destruct (decide (Grouped.GROUP a = Grouped.GROUP b)) as [Heq|Hne].
    + destruct (total String.le (Grouped.CUI a) (Grouped.CUI b)).
      * left. rewrite Heq. done.
      * right. done.
    + right. split; [done|]. intros Heq. by rewrite Heq in Hne.
Qed.

Lemma reverse_first_seen_elem (l : list string) (x : string) :
  x ∈ reverse (first_seen l) ↔ x ∈ l.
Proof. by rewrite elem_of_reverse, first_seen_elem. Qed.

Lemma reverse_first_seen_NoDup (l : list string) :
  NoDup (reverse (first_seen l)).
Proof. rewrite reverse_Permutation. apply first_seen_NoDup. Qed.

(** A library that keeps groups and unique values in the order first
    encountered, and sorts by merging. *)
Definition stable : polars :=
  {| group_order := first_seen;
     group_order_NoDup := first_seen_NoDup;
     group_order_elem := first_seen_elem;
     unique := first_seen;
     unique_NoDup := first_seen_NoDup;
     unique_elem := first_seen_elem;
     sort := merge_sort sort_key_le;
     sort_Permutation := merge_sort_Permutation sort_key_le;
     sort_Sorted := Sorted_merge_sort sort_key_le |}.

(** A library that differs from [stable] in one respect: it yields the
    unique values in the order last encountered first. *)
Definition reversing : polars :=
  {| group_order := first_seen;
     group_order_NoDup := first_seen_NoDup;
     group_order_elem := first_seen_elem;
     unique := λ l, reverse (first_seen l);
     unique_NoDup := reverse_first_seen_NoDup;
     unique_elem := reverse_first_seen_elem;
     sort := merge_sort sort_key_le;
     sort_Permutation := merge_sort_Permutation sort_key_le;
     sort_Sorted := Sorted_merge_sort sort_key_le |}.

End Polars.

(** ** A small corpus *)

Module Sample.

Definition umls_info : gmap string (gmap string ConceptInfo) :=
  {[ "Disease" :=
       {[ "C1" := {| title := "Flu";
                     description := "Flu ( Disease : Viral ; Infectious )" |} ]};
     "Symptom" :=
       {[ "C1" := {| title := "Flu-like";
                     description := "Flu-like ( Symptom : Sign )" |};
          "C2" := {| title := "Fever";
                     description := "Fever ( Symptom : Sign )" |} ]} ]}.

Definition semantic_info : list SemanticInfo.row :=
  [ SemanticInfo.Row "DISO" "T047" "Symptom";
    SemanticInfo.Row "PROC" "T061" "Procedure" ].

Definition cui_to_groups : gmap string (list string) :=
  {[ "C1" := ["Disease"; "Symptom"]; "C2" := ["Symptom"] ]}.

(** [X1] is corrected to [C2], and [C2] itself to [C1]. *)
Definition corrected_code : gmap string string :=
  {[ "X1" := "C2"; "C2" := "C1" ]}.

Definition ref (id : string) : NormalizedRef :=
  {| db_name := "UMLS"; db_id := id |}.

(** "flu", typed with a category code the resolver sends to a group
    that is not a candidate. *)
Definition flu : Entity.t :=
  Entity.mk (Some [ref "C1"]) (Some ["flu"]) (Some "PROC")
    (Some [[12; 15]%Z]).

(** No normalized reference. *)
Definition unlinked : Entity.t :=
  Entity.mk (Some []) (Some ["has"]) (Some "DISO") (Some [[8; 11]%Z]).

(** "fever", annotated with the id [X1] that the correction map fixes;
    its type is not a known code. *)
Definition fever : Entity.t :=
  Entity.mk (Some [ref "X1"]) (Some ["fever"]) (Some "??")
    (Some [[21; 26]%Z]).

(** A linked entity without surface text and without offsets. *)
Definition silent : Entity.t :=
  Entity.mk (Some [ref "C1"]) None (Some "Symptom") None.

(** The span given back to front. *)
Definition reversed : Entity.t :=
  Entity.mk (Some [ref "C1"]) (Some ["flu"]) (Some "Disease")
    (Some [[15; 12]%Z]).

Definition page : Page.t :=
  Page.mk "doc1"
    (Some [Passage.mk ["Patient has flu"]; Passage.mk ["and  fever "]])
    (Some [flu; unlinked; fever; silent]).


Definition backwards : Page.t :=
  Page.mk "doc3" (Some [Passage.mk ["Patient has flu"]]) (Some [reversed]).

(** The three records [_transform_pages] builds for [page]. *)
Definition flu_record : MentionRecord :=
  {| mention := "flu"; mention_id := "doc1.1";
     context_left := "Patient has"; context_right := "and  fever";
     context_doc_id := "doc1"; type := "Disease"; label_id := "C1";
     label := "Flu ( Disease : Viral ; Infectious )"; label_title := "Flu" |}.

Definition fever_record : MentionRecord :=
  {| mention := "fever"; mention_id := "doc1.2";
     context_left := "Patient has flu and"; context_right := "";
     context_doc_id := "doc1"; type := "Symptom"; label_id := "C2";
     label := "Fever ( Symptom : Sign )"; label_title := "Fever" |}.

Definition silent_record : MentionRecord :=
  {| mention := ""; mention_id := "doc1.3";
     context_left := ""; context_right := "Patient has flu and  fever";
     context_doc_id := "doc1"; type := "Symptom"; label_id := "C1";
     label := "Flu-like ( Symptom : Sign )"; label_title := "Flu-like" |}.

(** The two rows of the scenario of section 8, followed by a second
    concept. *)
Definition concept_table : list Umls.row :=
  [ Umls.Row "C1" "Flu" "Disease" "Viral";
    Umls.Row "C2" "Fever" "Symptom" "Sign";
    Umls.Row "C1" "Flu" "Disease" "Infectious";
    Umls.Row "C1" "Flu" "Disease" "Viral" ].

Definition flu_entry (description : string) : Dictionary.entry :=
  Dictionary.Entry "C1" "Flu" description "Disease".

Definition fever_entry : Dictionary.entry :=
  Dictionary.Entry "C2" "Fever" "Fever ( Symptom : Sign )" "Symptom".



(** A dataset with a validation and a train split, and a split the
    loop does not know. *)
Definition dataset : gmap string (list Page.t) :=
  {[ "validation" := [backwards]; "train" := [page]; "dev" := [page] ]}.

(** A dataset whose test split has a passage without text. *)
Definition broken_dataset : gmap string (list Page.t) :=
  {[ "validation" := [backwards];
     "test" := [Page.mk "doc4" (Some [Passage.mk []]) None];
     "train" := [page] ]}.

End Sample.

(** ** [process_bigbio_dataset] *)

(** The order in which [group_by("CUI")] yields the concept ids: each
    distinct id once, in an order of the library's choice. *)
Record cui_grouping : Type := MkCuiGrouping {
  cui_order : list string → list string;
  cui_order_NoDup : ∀ cuis, NoDup (cui_order cuis);
  cui_order_elem : ∀ cuis c, c ∈ cui_order cuis ↔ c ∈ cuis
}.

(** The [GROUP] values of the rows of one concept id, in row order. *)
Definition cui_group_values (df : list Umls.row) (cui : string) : list string :=
  Umls.GROUP <$> filter (λ r, Umls.CUI r = cui) df.

(** Lines 203-205: [dict(umls_df.group_by("CUI").agg([pl.col("GROUP")
    .unique()]).iter_rows())], a later row of the grouped frame
    overwriting an earlier one with the same key. *)
Definition build_cui_to_groups (pl : polars) (gr : cui_grouping)
    (df : list Umls.row) : gmap string (list string) :=
  foldl (λ d (row : string * list string), <[row.1 := row.2]> d) ∅
    ((λ cui, (cui, unique pl (cui_group_values df cui)))
       <$> cui_order gr (Umls.CUI <$> df)).

(** *** [json.dumps] on a mention dict *)

Module Json.

Definition quote : string := String (Ascii.ascii_of_nat 34) EmptyString.
Definition newline : string := String (Ascii.ascii_of_nat 10) EmptyString.

Definition hex_digit (n : N) : Ascii.ascii :=
  default (Ascii.ascii_of_nat 48) (String.get (N.to_nat n) "0123456789abcdef").

(** The replacement of one character by [encode_basestring_ascii]:
    the short escapes, the character itself from space to tilde, and a
    [\u00xx] escape otherwise (code points below 256). *)
Definition escape_char (c : Ascii.ascii) : string :=
  let n := Ascii.N_of_ascii c in
  if (n =? 34)%N then "\" +:+ quote
  else if (n =? 92)%N then "\\"
  else if (n =? 8)%N then "\b"
  else if (n =? 12)%N then "\f"
  else if (n =? 10)%N then "\n"
  else if (n =? 13)%N then "\r"
  else if (n =? 9)%N then "\t"
  else if ((32 <=? n) && (n <=? 126))%N then String c EmptyString
  else "\u00" +:+ String (hex_digit (n / 16)) (String (hex_digit (n mod 16))
                                                  EmptyString).

Fixpoint escape (s : string) : string :=
  match s with
  | EmptyString => EmptyString
  | String c s' => escape_char c +:+ escape s'
  end.

(** A string value or key, between double quotes. *)
Definition encode_string (s : string) : string :=
  quote +:+ escape s +:+ quote.

Definition member (key value : string) : string :=
  encode_string key +:+ ": " +:+ encode_string value.

(** [json.dumps(m)] for a mention dict: the nine members in insertion
    order, with the default separators. *)
Definition dumps (m : MentionRecord) : string :=
  "{" +:+ PyStr.join ", "
    [ member "mention" (mention m);
      member "mention_id" (mention_id m);
      member "context_left" (context_left m);
      member "context_right" (context_right m);
      member "context_doc_id" (context_doc_id m);
      member "type" (type m);
      member "label_id" (label_id m);
      member "label" (label m);
      member "label_title" (label_title m) ] +:+ "}".

(** Every character of [s] satisfies [p]; the number of characters of
    [s] that satisfy [p]. *)
Fixpoint all_chars (p : Ascii.ascii → bool) (s : string) : bool :=
  match s with
  | EmptyString => true
  | String c s' => p c && all_chars p s'
  end.

Fixpoint count_chars (p : Ascii.ascii → bool) (s : string) : nat :=
  match s with
  | EmptyString => 0
  | String c s' => (if p c then 1 else 0) + count_chars p s'
  end.

Definition printable (c : Ascii.ascii) : bool :=
  let n := Ascii.N_of_ascii c in ((32 <=? n) && (n <=? 126))%N.

Definition is_newline (c : Ascii.ascii) : bool :=
  (Ascii.N_of_ascii c =? 10)%N.

End Json.

(** Lines 223-228: the name of the file of a split and what is written
    into it. *)
Definition split_file (split : string) : string :=
  (if bool_decide (split = "validation") then "valid" else split) +:+ ".jsonl".

Definition jsonl (blink_mentions : list MentionRecord) : string :=
  PyStr.join Json.newline (Json.dumps <$> blink_mentions).

Section ProcessDataset.

Variable umls_info : gmap string (gmap string ConceptInfo).
Variable semantic_info : list SemanticInfo.row.
Variable cui_to_groups : gmap string (list string).
Variable corrected_code : option (gmap string string).
Variable dataset : gmap string (list Page.t).

(** Lines 208-231: the loop over the splits.  The files of the output
    directory are a map from file name to content; a split whose pages
    make [_transform_pages] raise stops the loop, with the files written
    so far in place.  Creating the directory and opening and writing a
    file are taken to succeed: the exceptions of the operating system
    are not part of the model, nor are those of reading the tables. *)
Fixpoint split_loop (splits : list string) (files : gmap string string)
  : gmap string string * result unit :=
  match splits with
  | [] => (files, Ok ())
  | split :: rest =>
      match dataset !! split with
      | None => split_loop rest files
      | Some pages =>
          match _transform_pages umls_info semantic_info cui_to_groups
                  corrected_code pages with
          | Ok blink_mentions =>
              split_loop rest
                (<[split_file split := jsonl blink_mentions]> files)
          | Raise e => (files, Raise e)
          end
      end
  end.

End ProcessDataset.

(** Lines 199-231, on a dataset and tables already loaded: the concept
    table [df], the unpickled [umls_info], and [semantic_info]. *)
Definition process_bigbio_dataset (pl : polars) (gr : cui_grouping)
    (dataset : gmap string (list Page.t)) (df : list Umls.row)
    (umls_info : gmap string (gmap string ConceptInfo))
    (semantic_info : list SemanticInfo.row)
    (corrected_code : option (gmap string string))
    (files : gmap string string) : gmap string string * result unit :=
  let cui_to_groups := build_cui_to_groups pl gr df in
  split_loop umls_info semantic_info cui_to_groups corrected_code dataset
    ["validation"; "test"; "train"] files.

(** A grouping that keeps the concept ids in the order first
    encountered. *)
Definition stable_cui_grouping : cui_grouping :=
  {| cui_order := first_seen;
     cui_order_NoDup := Polars.first_seen_NoDup;
     cui_order_elem := Polars.first_seen_elem |}.

(** The order of the returned dictionary: by group, then by concept
    id. *)
Definition entry_le (a b : Dictionary.entry) : Prop :=
  String.le (Dictionary.type a) (Dictionary.type b)
  ∧ (Dictionary.type a = Dictionary.type b →
     String.le (Dictionary.cui a) (Dictionary.cui b)).

(** The surface form of a string field: stripping changes nothing, and
    the first and the last character are not whitespace. *)
Definition trimmed (s : string) : Prop :=
  PyStr.strip s = s
  ∧ (∀ c t, s = String c t → PyStr.isspace c = false)
  ∧ (∀ t c, s = t +:+ String c EmptyString → PyStr.isspace c = false).

(** What the loop over the splits leaves in the file of a split when
    it runs to its end: the dumped records of the split if the dataset
    has it, and what was there before otherwise. *)
Definition split_outcome (umls_info : gmap string (gmap string ConceptInfo))
    (semantic_info : list SemanticInfo.row)
    (cui_to_groups : gmap string (list string))
    (corrected_code : option (gmap string string))
    (dataset : gmap string (list Page.t))
    (files files' : gmap string string) (split : string) : Prop :=
  match dataset !! split with
  | Some pages =>
      ∃ rs, _transform_pages umls_info semantic_info cui_to_groups
              corrected_code pages = Ok rs
            ∧ files' !! split_file split = Some (jsonl rs)
  | None => files' !! split_file split = files !! split_file split
  end.

(** * Properties *)

(** ** Strings *)

Section StringFacts.

Lemma append_cons (c : Ascii.ascii) (s t : string) :
  String c s +:+ t = String c (s +:+ t).
Proof. reflexivity. Qed.


Lemma append_nil_r (s : string) : s +:+ "" = s.
Proof. induction s as [|c s IH]; [done | by rewrite append_cons, IH]. Qed.

Lemma append_assoc (s t u : string) : (s +:+ t) +:+ u = s +:+ t +:+ u.
Proof. induction s as [|c s IH]; [done | by rewrite !append_cons, IH]. Qed.

Lemma length_append (s t : string) :
  String.length (s +:+ t) = String.length s + String.length t.
Proof.
  induction s as [|c s IH]; [done | rewrite append_cons; simpl; by rewrite IH].
Qed.






Lemma lstrip_split (s : string) :
  ∃ w, PyStr.blank w = true ∧ s = w +:+ PyStr.lstrip s.
Proof.
  induction s as [|c s [w [Hw Hs]]]; simpl.
  - by exists "".
  - destruct (PyStr.isspace c) eqn:Hc.
    + exists (String c w). simpl. rewrite Hc, Hw. split; [done|].
      rewrite append_cons. by f_equal.
    + by exists "".
Qed.



End StringFacts.

(** ** The sample corpus, run *)

Example strip_example : PyStr.strip "  ab c  " = "ab c".
Proof. reflexivity. Qed.

Example slice_example :
  PyStr.slice_to "abcdef" 2 = "ab" ∧ PyStr.slice_from "abcdef" (-2) = "ef"
  ∧ PyStr.slice "abcdef" 1 3 = "bc" ∧ PyStr.slice_from "abc" 7 = "".
Proof. repeat split. Qed.

Example sample_page_run :
  _transform_pages Sample.umls_info Sample.semantic_info Sample.cui_to_groups
    (Some Sample.corrected_code) [Sample.page]
  = Ok [Sample.flu_record; Sample.fever_record; Sample.silent_record].
Proof. vm_compute. reflexivity. Qed.

(** Without the correction map, [X1] is unknown to the index and the raw
    type of "fever" is no known code: the entity is dropped. *)
Example sample_page_run_uncorrected :
  _transform_pages Sample.umls_info Sample.semantic_info Sample.cui_to_groups
    None [Sample.page]
  = Ok [Sample.flu_record;
        {| mention := ""; mention_id := "doc1.2";
           context_left := "";
           context_right := "Patient has flu and  fever";
           context_doc_id := "doc1"; type := "Symptom"; label_id := "C1";
           label := "Flu-like ( Symptom : Sign )";
           label_title := "Flu-like" |}].
Proof. vm_compute. reflexivity. Qed.

(** A passage without text fragments makes the whole call raise. *)
Example empty_passage_raises :
  _transform_pages Sample.umls_info Sample.semantic_info Sample.cui_to_groups
    None [Sample.page; Page.mk "doc4" (Some [Passage.mk []]) None]
  = Raise IndexError.
Proof. vm_compute. reflexivity. Qed.

Example sample_dictionary :
  (prepare_dictionary_from_umls Polars.stable Sample.concept_table).2
  = [ Sample.flu_entry "Flu ( Disease : Viral ; Infectious )";
      Sample.fever_entry ].
Proof. vm_compute. reflexivity. Qed.

(** ** The entity loop body *)

Section ExtractorFacts.

Variable umls_info : gmap string (gmap string ConceptInfo).
Variable semantic_info : list SemanticInfo.row.
Variable cui_to_groups : gmap string (list string).
Variable corrected_code : option (gmap string string).

Local Abbreviation c2g := (cat_to_group semantic_info).
Local Abbreviation s2g := (sem_to_group semantic_info).
Local Abbreviation transform_entity' :=
  (transform_entity umls_info semantic_info cui_to_groups corrected_code).
Local Abbreviation entity_loop' :=
  (entity_loop umls_info semantic_info cui_to_groups corrected_code).
Local Abbreviation transform_page' :=
  (transform_page umls_info semantic_info cui_to_groups corrected_code).
Local Abbreviation page_loop' :=
  (page_loop umls_info semantic_info cui_to_groups corrected_code).
Local Abbreviation transform_pages' :=
  (_transform_pages umls_info semantic_info cui_to_groups corrected_code).

Lemma in_keys_true {V : Type} (k : string) (d : gmap string V) :
  in_keys k d = true ↔ is_Some (d !! k).
Proof. unfold in_keys. by rewrite bool_decide_eq_true. Qed.

(** What an appended record says about the entity it came from. *)
Lemma transform_entity_emitted document_id txt entity_id entity r :
  transform_entity' document_id txt entity_id entity = Ok (Emitted r) →
  ∃ n0 ns concepts info start stop,
    Entity.normalized entity = Some (n0 :: ns)
    ∧ let cui := correct_cui corrected_code (db_id n0) in
      let group :=
        determine_group c2g s2g (default [] (cui_to_groups !! cui))
          (Entity.type entity) in
      group ≠ "Unknown"
      ∧ umls_info !! group = Some concepts
      ∧ concepts !! cui = Some info
      ∧ start_index (default [] (Entity.offsets entity)) = Ok start
      ∧ end_index (default [] (Entity.offsets entity)) = Ok stop
      ∧ r = {| mention :=
                 PyStr.strip (PyStr.join " " (default [] (Entity.text entity)));
               mention_id := document_id +:+ "." +:+ pretty entity_id;
               context_left := PyStr.strip (PyStr.slice_to txt start);
               context_right := PyStr.strip (PyStr.slice_from txt stop);
               context_doc_id := document_id;
               type := group;
               label_id := cui;
               label := description info;
               label_title := title info |}.
Proof.
  unfold transform_entity.
  destruct (Entity.normalized entity) as [[|n0 ns]|] eqn:Hn; try done.
  set (cui := correct_cui corrected_code (db_id n0)).
  set (group := determine_group _ _ _ _).
  case_bool_decide as Hunk; [done|].
  destruct (in_keys group umls_info) eqn:Hg; simpl; [|done].
  apply in_keys_true in Hg as [concepts Hg].
  unfold dict_getitem at 1. rewrite Hg. simpl.
  destruct (in_keys cui concepts) eqn:Hc; simpl; [|done].
  apply in_keys_true in Hc as [info Hc].
  unfold dict_getitem. rewrite Hg. simpl. rewrite Hc. simpl.
  destruct (start_index _) as [start|] eqn:Hs; simpl; [|done].
  destruct (end_index _) as [stop|] eqn:He; simpl; [|done].
  intros [= <-]. exists n0, ns, concepts, info, start, stop. done.
Qed.

(** ... and the converse: the conditions under which a record is
    appended. *)
Lemma transform_entity_emits document_id txt entity_id entity
    n0 ns concepts info start stop :
  Entity.normalized entity = Some (n0 :: ns) →
  let cui := correct_cui corrected_code (db_id n0) in
  let group :=
    determine_group c2g s2g (default [] (cui_to_groups !! cui))
      (Entity.type entity) in
  group ≠ "Unknown" →
  umls_info !! group = Some concepts →
  concepts !! cui = Some info →
  start_index (default [] (Entity.offsets entity)) = Ok start →
  end_index (default [] (Entity.offsets entity)) = Ok stop →
  transform_entity' document_id txt entity_id entity
  = Ok (Emitted
      {| mention :=
           PyStr.strip (PyStr.join " " (default [] (Entity.text entity)));
         mention_id := document_id +:+ "." +:+ pretty entity_id;
         context_left := PyStr.strip (PyStr.slice_to txt start);
         context_right := PyStr.strip (PyStr.slice_from txt stop);
         context_doc_id := document_id;
         type := group;
         label_id := cui;
         label := description info;
         label_title := title info |}).
Proof.
  intros Hn cui group Hunk Hg Hc Hs He. unfold transform_entity.
  rewrite Hn. fold cui. fold group.
  rewrite bool_decide_eq_false_2 by done.
  assert (in_keys group umls_info = true) as -> by (apply in_keys_true; eauto).
  simpl. unfold dict_getitem. rewrite Hg. simpl.
  assert (in_keys cui concepts = true) as -> by (apply in_keys_true; eauto).
  simpl. rewrite Hc. simpl. rewrite Hs, He. done.
Qed.

(** Under the same conditions on the concept, the loop body reaches no
    [continue], whatever the offsets are. *)
Lemma transform_entity_not_skipped document_id txt entity_id entity
    n0 ns concepts info why :
  Entity.normalized entity = Some (n0 :: ns) →
  let cui := correct_cui corrected_code (db_id n0) in
  let group :=
    determine_group c2g s2g (default [] (cui_to_groups !! cui))
      (Entity.type entity) in
  group ≠ "Unknown" →
  umls_info !! group = Some concepts →
  concepts !! cui = Some info →
  transform_entity' document_id txt entity_id entity ≠ Ok (Skipped why).
Proof.
  intros Hn cui group Hunk Hg Hc. unfold transform_entity.
  rewrite Hn. fold cui. fold group.
  rewrite bool_decide_eq_false_2 by done.
  assert (in_keys group umls_info = true) as -> by (apply in_keys_true; eauto).
  simpl. unfold dict_getitem. rewrite Hg. simpl.
  assert (in_keys cui concepts = true) as -> by (apply in_keys_true; eauto).
  simpl. rewrite Hc. simpl.
  destruct (start_index _); simpl; [|done].
  destruct (end_index _); simpl; done.
Qed.

(** The only errors the loop body can raise come from the offsets. *)
Lemma transform_entity_no_KeyError document_id txt entity_id entity :
  transform_entity' document_id txt entity_id entity ≠ Raise KeyError.
Proof.
  unfold transform_entity.
  destruct (Entity.normalized entity) as [[|n0 ns]|]; try done.
  set (cui := correct_cui corrected_code (db_id n0)).
  set (group := determine_group _ _ _ _).
  case_bool_decide; [done|].
  destruct (in_keys group umls_info) eqn:Hg; simpl; [|done].
  apply in_keys_true in Hg as [concepts Hg].
  unfold dict_getitem. rewrite Hg. simpl.
  destruct (in_keys cui concepts) eqn:Hc; simpl; [|done].
  apply in_keys_true in Hc as [info Hc]. rewrite Hc. simpl.
  destruct (Entity.offsets entity) as [[|o os]|]; simpl; try done.
  - unfold start_index, end_index, list_getitem.
    destruct o as [|a [|b o]]; simpl;
      destruct (last (_ :: os)) as [[|a' [|b' o']]|]; simpl; done.
Qed.

(** ** The loops *)

Lemma entity_loop_app document_id txt es1 es2 entity_id acc :
  entity_loop' document_id txt (es1 ++ es2) entity_id acc
  = (st ←! entity_loop' document_id txt es1 entity_id acc;
     entity_loop' document_id txt es2 st.1 st.2).
Proof.
  revert entity_id acc. induction es1 as [|e es1 IH]; intros entity_id acc.
  - done.
  - simpl. destruct (transform_entity' _ _ _ e) as [[why|r]|err]; simpl; auto.
Qed.

(** The records one run of the entity loop appends: the accumulator is
    only extended, one record per emitting entity, and the counter
    advances by exactly the number of appended records. *)
Lemma entity_loop_appends document_id txt es entity_id acc entity_id' acc' :
  entity_loop' document_id txt es entity_id acc = Ok (entity_id', acc') →
  ∃ new,
    acc' = acc ++ new
    ∧ entity_id' = entity_id + length new
    ∧ length new ≤ length es
    ∧ mention_id <$> new
      = (λ i, document_id +:+ "." +:+ pretty i) <$> seq entity_id (length new)
    ∧ Forall (λ r, ∃ e k, e ∈ es
                 ∧ transform_entity' document_id txt k e = Ok (Emitted r)) new.
Proof.
  revert entity_id acc. induction es as [|e es IH]; intros entity_id acc; simpl.
  - intros [= <- <-]. exists []. rewrite app_nil_r. simpl.
    repeat split; [lia | lia | constructor].
  - destruct (transform_entity' _ _ _ e) as [[why|r]|err] eqn:He; simpl;
      [| |done].
    + intros (new & -> & -> & Hlen & Hids & Hall)%IH.
      exists new. repeat split; [lia | done |].
      eapply Forall_impl; [exact Hall|].
      intros r (e' & k & ? & ?). exists e', k. split; [by right | done].
    + intros (new & -> & -> & Hlen & Hids & Hall)%IH.
      exists (r :: new). rewrite <- app_assoc. simpl.
      repeat split; [lia | lia | |].
      * f_equal; [|done].
        apply transform_entity_emitted in He
          as (? & ? & ? & ? & ? & ? & _ & _ & _ & _ & _ & _ & ->). done.
      * constructor.
        -- exists e, entity_id. split; [by left | done].
        -- eapply Forall_impl; [exact Hall|].
           intros r' (e' & k & ? & ?). exists e', k. split; [by right | done].
Qed.

(** The loop does not read the accumulator: starting from [acc] gives
    what starting from the empty list gives, after [acc]. *)
Lemma entity_loop_frame document_id txt es entity_id acc :
  entity_loop' document_id txt es entity_id acc
  = (st ←! entity_loop' document_id txt es entity_id [];
     Ok (st.1, acc ++ st.2)).
Proof.
  revert entity_id acc. induction es as [|e es IH]; intros entity_id acc; simpl.
  - by rewrite app_nil_r.
  - destruct (transform_entity' _ _ _ e) as [[why|r]|err]; simpl; [done| |done].
    rewrite (IH _ (acc ++ [r])), (IH _ [r]).
    destruct (entity_loop' _ _ es _ []) as [[i new]|]; simpl; [|done].
    by rewrite <- app_assoc.
Qed.

Lemma transform_page_frame page acc :
  transform_page' page acc
  = (recs ←! transform_page' page []; Ok (acc ++ recs)).
Proof.
  unfold transform_page. destruct (all_text page) as [txt|]; simpl; [|done].
  rewrite entity_loop_frame.
  destruct (entity_loop' _ _ _ _ []) as [[i new]|]; simpl; done.
Qed.

(** The output is the concatenation, in page order, of what each page
    yields on its own. *)
Lemma page_loop_concat pages acc rs :
  page_loop' pages acc = Ok rs ↔
  ∃ per_page,
    Forall2 (λ page recs, transform_page' page [] = Ok recs) pages per_page
    ∧ rs = acc ++ concat per_page.
Proof.
  revert acc. induction pages as [|page pages IH]; intros acc; simpl.
  - split.
    + intros [= <-]. exists []. rewrite app_nil_r. by split.
    + intros (per_page & ->%Forall2_nil_inv_l & ->). simpl.
      by rewrite app_nil_r.
  - rewrite transform_page_frame.
    destruct (transform_page' page []) as [recs|err] eqn:Hp; simpl.
    + rewrite IH. split.
      * intros (per_page & Hall & ->). exists (recs :: per_page).
        split; [by constructor|]. simpl. by rewrite app_assoc.
      * intros (per_page & Hall & ->).
        apply Forall2_cons_inv_l in Hall as (recs' & rest & Hr & Hall & ->).
        exists rest. split; [done|].
        rewrite Hp in Hr. injection Hr as <-. simpl. by rewrite app_assoc.
    + split; [done|].
      intros (per_page & Hall & _).
      apply Forall2_cons_inv_l in Hall as (recs' & rest & Hr & _).
      by rewrite Hp in Hr.
Qed.

Lemma transform_pages_concat pages rs :
  transform_pages' pages = Ok rs ↔
  ∃ per_page,
    Forall2 (λ page recs, transform_page' page [] = Ok recs) pages per_page
    ∧ rs = concat per_page.
Proof. unfold _transform_pages. by rewrite page_loop_concat. Qed.

(** Every record of the output was produced by the loop body on some
    entity of some page, with that page's text and document id. *)
Lemma transform_pages_provenance pages rs r :
  transform_pages' pages = Ok rs → r ∈ rs →
  ∃ page txt entity k,
    page ∈ pages
    ∧ all_text page = Ok txt
    ∧ entity ∈ default [] (Page.entities page)
    ∧ transform_entity' (Page.document_id page) txt k entity = Ok (Emitted r).
Proof.
  intros (per_page & Hall & ->)%transform_pages_concat Hr.
  apply list_elem_of_In, in_concat in Hr as (recs & Hrecs & Hr).
  apply list_elem_of_In in Hrecs, Hr.
  apply list_elem_of_lookup in Hrecs as [i Hi].
  destruct (Forall2_lookup_r _ _ _ _ _ Hall Hi) as (page & Hpage & Hp).
  unfold transform_page in Hp.
  destruct (all_text page) as [txt|] eqn:Htxt; simpl in Hp; [|done].
  destruct (entity_loop' _ _ _ _ _) as [[i' new]|] eqn:Hloop; simpl in Hp;
    [|done].
  injection Hp as ->.
  apply entity_loop_appends in Hloop as (new & -> & _ & _ & _ & Hnew).
  simpl in Hr. rewrite Forall_forall in Hnew.
  destruct (Hnew r Hr) as (e & k & He & Hk).
  exists page, txt, e, k. repeat split; try done.
  by eapply list_elem_of_lookup_2.
Qed.

End ExtractorFacts.


(** ** Group resolution *)

Lemma in_values_spec (x : string) (d : gmap string string) :
  in_values x d = true ↔ is_group_name d x.
Proof.
  unfold in_values, is_group_name. rewrite bool_decide_eq_true, list_elem_of_fmap.
  split.
  - intros ([k v] & -> & Hkv). exists k. by apply elem_of_map_to_list.
  - intros [k Hk]. exists (k, x). split; [done|]. by apply elem_of_map_to_list.
Qed.

(** The type-based rules of the code are the four rules of the
    specification. *)
Lemma type_group_heuristic (c2g s2g : gmap string string) (raw : option string) :
  type_heuristic c2g s2g raw (type_group c2g s2g raw).
Proof.
  destruct raw as [ty|]; simpl.
  - destruct (in_values ty c2g) eqn:Hv.
    + apply by_group_name. by apply in_values_spec.
    + assert (¬ is_group_name c2g ty) as Hn.
      { rewrite <- in_values_spec. by rewrite Hv. }
      destruct (c2g !! ty) as [g|] eqn:Hc; [by apply by_category|].
      destruct (s2g !! ty) as [g|] eqn:Hs; [by apply by_semantic_type|].
      apply by_default. by intros ? [= <-].
  - apply by_default. done.
Qed.

Lemma type_heuristic_functional (c2g s2g : gmap string string)
    (raw : option string) (g : string) :
  type_heuristic c2g s2g raw g → g = type_group c2g s2g raw.
Proof.
  intros H. destruct H as [ty Hv|ty g Hn Hc|ty g Hn Hc Hs|raw Hd]; simpl.
  - apply in_values_spec in Hv. by rewrite Hv.
  - destruct (in_values ty c2g) eqn:Hv; [by apply in_values_spec in Hv|].
    by rewrite Hc.
  - destruct (in_values ty c2g) eqn:Hv; [by apply in_values_spec in Hv|].
    by rewrite Hc, Hs.
  - destruct raw as [ty|]; simpl; [|done].
    destruct (Hd ty eq_refl) as (Hn & Hc & Hs).
    destruct (in_values ty c2g) eqn:Hv; [by apply in_values_spec in Hv|].
    by rewrite Hc, Hs.
Qed.

Lemma emitted_type umls_info semantic_info cui_to_groups corrected_code
    document_id txt k entity r :
  transform_entity umls_info semantic_info cui_to_groups corrected_code
    document_id txt k entity = Ok (Emitted r) →
  ∃ cui,
    entity_cui corrected_code entity = Some cui
    ∧ label_id r = cui
    ∧ type r = determine_group (cat_to_group semantic_info)
                 (sem_to_group semantic_info)
                 (candidate_groups cui_to_groups cui) (Entity.type entity).
Proof.
  intros (n0 & ns & concepts & info & start & stop & Hn & Hrest)
    %transform_entity_emitted.
  simpl in Hrest. destruct Hrest as (_ & _ & _ & _ & _ & ->).
  eexists. unfold entity_cui. rewrite Hn. done.
Qed.

(** C1. When the concept-group index lists exactly one group for the
    (corrected) concept id of an entity, group resolution returns that
    group whatever the raw type is, the record emitted for the entity
    carries it as its [type], and replacing the entity's raw type by any
    other value leaves the outcome of the entity unchanged. *)
Theorem single_candidate_group_wins
    umls_info semantic_info cui_to_groups corrected_code entity cui g :
  entity_cui corrected_code entity = Some cui →
  cui_to_groups !! cui = Some [g] →
  (∀ raw, determine_group (cat_to_group semantic_info)
            (sem_to_group semantic_info)
            (candidate_groups cui_to_groups cui) raw = g)
  ∧ (∀ document_id txt k r,
       transform_entity umls_info semantic_info cui_to_groups corrected_code
         document_id txt k entity = Ok (Emitted r) →
       type r = g)
  ∧ (∀ raw document_id txt k,
       transform_entity umls_info semantic_info cui_to_groups corrected_code
         document_id txt k (with_type raw entity)
       = transform_entity umls_info semantic_info cui_to_groups corrected_code
           document_id txt k entity).
Proof.
  intros Hcui Hg.
  assert (∀ raw, determine_group (cat_to_group semantic_info)
            (sem_to_group semantic_info)
            (candidate_groups cui_to_groups cui) raw = g) as Hdet.
  { intros raw. unfold candidate_groups. by rewrite Hg. }
  split; [done|]. split.
  - intros document_id txt k r (cui' & Hcui' & _ & ->)%emitted_type.
    rewrite Hcui in Hcui'. injection Hcui' as <-. apply Hdet.
  - intros raw document_id txt k. unfold transform_entity, entity_cui in *.
    simpl. destruct (Entity.normalized entity) as [[|n0 ns]|]; try done.
    injection Hcui as Hcui. rewrite Hcui.
    unfold candidate_groups in Hdet. by rewrite !Hdet.
Qed.

Lemma single_candidate_group_wins_witness :
  determine_group (cat_to_group Sample.semantic_info)
    (sem_to_group Sample.semantic_info)
    (candidate_groups Sample.cui_to_groups "C2") (Some "PROC") = "Symptom".
Proof.
  apply (single_candidate_group_wins Sample.umls_info Sample.semantic_info
           Sample.cui_to_groups (Some Sample.corrected_code) Sample.fever
           "C2" "Symptom"); reflexivity.
Defined.

(** C2. When the concept-group index lists no group or several groups
    for the concept id of an entity, the group read off the raw type is
    the one the four rules give (group name, category code, semantic-type
    code, else "Unknown"); the resolved group is that group when the
    candidate list is empty or contains it, and the first candidate
    otherwise; and a record emitted for the entity carries the resolved
    group as its [type]. *)
Theorem type_heuristics_then_first_candidate
    umls_info semantic_info cui_to_groups corrected_code entity cui :
  entity_cui corrected_code entity = Some cui →
  length (candidate_groups cui_to_groups cui) ≠ 1 →
  let c2g := cat_to_group semantic_info in
  let s2g := sem_to_group semantic_info in
  let groups := candidate_groups cui_to_groups cui in
  let resolved := determine_group c2g s2g groups (Entity.type entity) in
  ∃ from_type,
    type_heuristic c2g s2g (Entity.type entity) from_type
    ∧ (∀ g, type_heuristic c2g s2g (Entity.type entity) g → g = from_type)
    ∧ (groups = [] → resolved = from_type)
    ∧ (from_type ∈ groups → resolved = from_type)
    ∧ (∀ g0 rest, groups = g0 :: rest → from_type ∉ groups → resolved = g0)
    ∧ (∀ document_id txt k r,
         transform_entity umls_info semantic_info cui_to_groups corrected_code
           document_id txt k entity = Ok (Emitted r) →
         type r = resolved).
Proof.
  intros Hcui Hlen c2g s2g groups resolved.
  exists (type_group c2g s2g (Entity.type entity)).
  split; [apply type_group_heuristic|].
  split; [intros g Hg; by apply type_heuristic_functional|].
  subst resolved. unfold determine_group. fold groups in Hlen |- *.
  assert (∀ document_id txt k r,
    transform_entity umls_info semantic_info cui_to_groups corrected_code
      document_id txt k entity = Ok (Emitted r) →
    type r = determine_group c2g s2g groups (Entity.type entity)) as Hemit.
  { intros document_id txt k r (cui' & Hcui' & _ & ->)%emitted_type.
    rewrite Hcui in Hcui'. by injection Hcui' as <-. }
  revert Hemit. unfold determine_group.
  destruct groups as [|g0 [|g1 rest]]; [|done|]; intros Hemit.
  - split_and!; done.
  - split_and!; try done.
    + intros Hin. by rewrite bool_decide_eq_true_2.
    + intros g0' rest' [= <- <-] Hnin. by rewrite bool_decide_eq_false_2.
Qed.

Lemma type_heuristics_then_first_candidate_witness :
  type_heuristic (cat_to_group Sample.semantic_info)
    (sem_to_group Sample.semantic_info) (Some "PROC") "Procedure"
  ∧ determine_group (cat_to_group Sample.semantic_info)
      (sem_to_group Sample.semantic_info)
      (candidate_groups Sample.cui_to_groups "C1") (Some "PROC")
    = "Disease".
Proof.
  destruct (type_heuristics_then_first_candidate Sample.umls_info
              Sample.semantic_info Sample.cui_to_groups
              (Some Sample.corrected_code) Sample.flu "C1")
    as (from_type & Hrule & Hunique & _ & _ & Hfirst & _).
  - reflexivity.
  - vm_compute. lia.
  - assert (from_type = "Procedure") as ->.
    { symmetry. apply Hunique.
      apply (type_group_heuristic (cat_to_group Sample.semantic_info)
               (sem_to_group Sample.semantic_info) (Some "PROC")). }
    split; [exact Hrule|].
    apply (Hfirst "Disease" ["Symptom"]); [reflexivity|].
    assert (candidate_groups Sample.cui_to_groups "C1"
            = ["Disease"; "Symptom"]) as -> by reflexivity.
    rewrite !not_elem_of_cons. split_and!; [done | done |].
    apply not_elem_of_nil.
Defined.

(** ** Skips *)

Lemma all_text_with_entities (es : option (list Entity.t)) (page : Page.t) :
  all_text (with_entities es page) = all_text page.
Proof. reflexivity. Qed.

(** C6. An entity without normalized references (the key is missing or
    the list is empty) makes the loop body skip: no record is built, and
    the entity loop, hence the whole page, runs exactly as if the entity
    were not in the list, from the same counter and the same
    accumulator, going on with the entities after it. *)
Theorem unlinked_entity_is_skipped
    umls_info semantic_info cui_to_groups corrected_code entity :
  Entity.normalized entity = None ∨ Entity.normalized entity = Some [] →
  (∀ document_id txt k,
     transform_entity umls_info semantic_info cui_to_groups corrected_code
       document_id txt k entity = Ok (Skipped NoCui))
  ∧ (∀ document_id txt before after k acc,
       entity_loop umls_info semantic_info cui_to_groups corrected_code
         document_id txt (before ++ entity :: after) k acc
       = entity_loop umls_info semantic_info cui_to_groups corrected_code
           document_id txt (before ++ after) k acc)
  ∧ (∀ page before after acc,
       Page.entities page = Some (before ++ entity :: after) →
       transform_page umls_info semantic_info cui_to_groups corrected_code
         page acc
       = transform_page umls_info semantic_info cui_to_groups corrected_code
           (with_entities (Some (before ++ after)) page) acc).
Proof.
  intros Hn.
  assert (∀ document_id txt k,
     transform_entity umls_info semantic_info cui_to_groups corrected_code
       document_id txt k entity = Ok (Skipped NoCui)) as Hskip.
  { intros. unfold transform_entity. by destruct Hn as [-> | ->]. }
  assert (∀ document_id txt before after k acc,
       entity_loop umls_info semantic_info cui_to_groups corrected_code
         document_id txt (before ++ entity :: after) k acc
       = entity_loop umls_info semantic_info cui_to_groups corrected_code
           document_id txt (before ++ after) k acc) as Hloop.
  { intros. rewrite !entity_loop_app.
    destruct (entity_loop _ _ _ _ _ _ before k acc) as [[k' acc']|]; simpl;
      [|done].
    by rewrite Hskip. }
  split_and!; [done | done |].
  intros page before after acc Hes. unfold transform_page.
  rewrite all_text_with_entities. simpl. rewrite Hes. simpl.
  destruct (all_text page) as [txt|]; simpl; [|done]. by rewrite Hloop.
Qed.

Lemma unlinked_entity_is_skipped_witness :
  transform_page Sample.umls_info Sample.semantic_info Sample.cui_to_groups
    (Some Sample.corrected_code) Sample.page []
  = transform_page Sample.umls_info Sample.semantic_info Sample.cui_to_groups
      (Some Sample.corrected_code)
      (with_entities (Some ([Sample.flu] ++ [Sample.fever; Sample.silent]))
         Sample.page) [].
Proof.
  apply (unlinked_entity_is_skipped Sample.umls_info Sample.semantic_info
           Sample.cui_to_groups (Some Sample.corrected_code) Sample.unlinked).
  - right. reflexivity.
  - reflexivity.
Defined.

(** ** The records and the terminology index *)

Lemma entity_loop_no_KeyError umls_info semantic_info cui_to_groups
    corrected_code document_id txt es k acc :
  entity_loop umls_info semantic_info cui_to_groups corrected_code
    document_id txt es k acc ≠ Raise KeyError.
Proof.
  revert k acc. induction es as [|e es IH]; intros k acc; simpl; [done|].
  destruct (transform_entity _ _ _ _ _ _ _ e) as [[why|r]|err] eqn:He; simpl;
    [apply IH | apply IH |].
  intros [= ->]. by eapply transform_entity_no_KeyError.
Qed.

Lemma all_text_no_KeyError (page : Page.t) : all_text page ≠ Raise KeyError.
Proof.
  unfold all_text.
  assert (∀ l, list_comprehension
            (λ passage, list_getitem (Passage.text passage) 0) l
          ≠ Raise KeyError) as Hl.
  { induction l as [|p l IH]; simpl; [done|].
    unfold list_getitem at 1. destruct (Passage.text p !! 0); simpl; [|done].
    destruct (list_comprehension _ l) as [|[]]; simpl; done. }
  specialize (Hl (default [] (Page.passages page))).
  destruct (list_comprehension _ _) as [|[]]; simpl; done.
Qed.

Lemma page_loop_no_KeyError umls_info semantic_info cui_to_groups
    corrected_code pages acc :
  page_loop umls_info semantic_info cui_to_groups corrected_code pages acc
  ≠ Raise KeyError.
Proof.
  revert acc. induction pages as [|page pages IH]; intros acc; simpl; [done|].
  unfold transform_page.
  pose proof (all_text_no_KeyError page) as Ht.
  destruct (all_text page) as [txt|[]]; simpl; try done.
  pose proof (entity_loop_no_KeyError umls_info semantic_info cui_to_groups
                corrected_code (Page.document_id page) txt
                (default [] (Page.entities page)) 1 acc) as Hl.
  destruct (entity_loop _ _ _ _ _ _ _ _ _) as [[k' acc']|[]]; simpl;
    [apply IH | done | done].
Qed.

(** C8. The dictionary reads that build [label] and [label_title] never
    raise [KeyError], and every record of the output names a group of
    [umls_info] in [type], a concept id of that group in [label_id], and
    carries in [label] and [label_title] the description and the title
    stored for that pair. *)
Theorem emitted_records_index_umls_info
    umls_info semantic_info cui_to_groups corrected_code pages :
  _transform_pages umls_info semantic_info cui_to_groups corrected_code pages
  ≠ Raise KeyError
  ∧ ∀ rs r,
      _transform_pages umls_info semantic_info cui_to_groups corrected_code
        pages = Ok rs →
      r ∈ rs →
      ∃ concepts info,
        umls_info !! type r = Some concepts
        ∧ concepts !! label_id r = Some info
        ∧ label r = description info
        ∧ label_title r = title info.
Proof.
  split; [apply page_loop_no_KeyError|].
  intros rs r Hrun Hr.
  destruct (transform_pages_provenance _ _ _ _ _ _ _ Hrun Hr)
    as (page & txt & e & k & _ & _ & _ & He).
  apply transform_entity_emitted in He
    as (n0 & ns & concepts & info & start & stop & _ & Hrest).
  simpl in Hrest. destruct Hrest as (_ & Hg & Hc & _ & _ & ->).
  exists concepts, info. done.
Qed.

Lemma emitted_records_index_umls_info_witness :
  ∃ concepts info,
    Sample.umls_info !! type Sample.fever_record = Some concepts
    ∧ concepts !! label_id Sample.fever_record = Some info
    ∧ label Sample.fever_record = description info
    ∧ label_title Sample.fever_record = title info.
Proof.
  apply (proj2 (emitted_records_index_umls_info Sample.umls_info
                  Sample.semantic_info Sample.cui_to_groups
                  (Some Sample.corrected_code) [Sample.page])
           [Sample.flu_record; Sample.fever_record; Sample.silent_record]).
  - vm_compute. reflexivity.
  - right. left.
Defined.

(** ** The correction map *)

(** C9. When the id of the first normalized reference is a key of the
    correction map, the loop works with the value stored for it, read
    once: the value is not looked up again, whether or not it is itself
    a key of the map, and the candidate groups, the resolved group, the
    lookups in [umls_info] and [label_id] all use it. *)
Theorem correction_is_not_chained
    umls_info semantic_info cui_to_groups d entity n0 ns cui' :
  Entity.normalized entity = Some (n0 :: ns) →
  d !! db_id n0 = Some cui' →
  entity_cui (Some d) entity = Some cui'
  ∧ ∀ document_id txt k r,
      transform_entity umls_info semantic_info cui_to_groups (Some d)
        document_id txt k entity = Ok (Emitted r) →
      label_id r = cui'
      ∧ type r = determine_group (cat_to_group semantic_info)
                   (sem_to_group semantic_info)
                   (candidate_groups cui_to_groups cui') (Entity.type entity)
      ∧ ∃ concepts info,
          umls_info !! type r = Some concepts
          ∧ concepts !! cui' = Some info
          ∧ label r = description info
          ∧ label_title r = title info.
Proof.
  intros Hn Hd.
  assert (correct_cui (Some d) (db_id n0) = cui') as Hc.
  { unfold correct_cui. by rewrite Hd. }
  split; [unfold entity_cui; by rewrite Hn, Hc|].
  intros document_id txt k r
    (n0' & ns' & concepts & info & start & stop & Hn' & Hrest)
    %transform_entity_emitted.
  rewrite Hn in Hn'. injection Hn' as <- <-.
  cbv zeta in Hrest. rewrite Hc in Hrest.
  destruct Hrest as (_ & Hg & Hi & _ & _ & ->). simpl.
  split_and!; try done. exists concepts, info. done.
Qed.

Lemma correction_is_not_chained_witness :
  Sample.corrected_code !! "C2" = Some "C1"
  ∧ entity_cui (Some Sample.corrected_code) Sample.fever = Some "C2"
  ∧ label_id Sample.fever_record = "C2".
Proof.
  split; [reflexivity|].
  destruct (correction_is_not_chained Sample.umls_info Sample.semantic_info
              Sample.cui_to_groups Sample.corrected_code Sample.fever
              (Sample.ref "X1") [] "C2") as [Hcui Hrecord].
  - reflexivity.
  - reflexivity.
  - split; [exact Hcui|].
    apply (Hrecord "doc1" "Patient has flu and  fever " 2 Sample.fever_record).
    vm_compute. reflexivity.
Defined.

(** ** Entities without surface text *)

Lemma start_index_total (offsets : list (list Z)) :
  ∃ start, start_index offsets = Ok start.
Proof.
  destruct offsets as [|[|a o] os]; simpl; eauto.
Qed.

Lemma end_index_total (offsets : list (list Z)) :
  Forall (λ o, length o ≠ 1) offsets → ∃ stop, end_index offsets = Ok stop.
Proof.
  intros Hall. unfold end_index.
  destruct (last offsets) as [o|] eqn:Hlast; [|eauto].
  apply last_Some_elem_of in Hlast.
  rewrite Forall_forall in Hall. specialize (Hall o Hlast).
  destruct o as [|a [|b o]]; simpl in *; eauto. done.
Qed.




(** ** Mention ids *)

Lemma transform_page_records umls_info semantic_info cui_to_groups
    corrected_code page recs :
  transform_page umls_info semantic_info cui_to_groups corrected_code page []
  = Ok recs →
  mention_id <$> recs
  = (λ i, Page.document_id page +:+ "." +:+ pretty i) <$> seq 1 (length recs)
  ∧ NoDup (mention_id <$> recs)
  ∧ Forall (λ r, context_doc_id r = Page.document_id page) recs
  ∧ length recs ≤ length (default [] (Page.entities page)).
Proof.
  unfold transform_page.
  destruct (all_text page) as [txt|]; simpl; [|done].
  destruct (entity_loop _ _ _ _ _ _ _ _ _) as [[k' acc']|] eqn:Hloop; simpl;
    [|done].
  intros [= <-].
  apply entity_loop_appends in Hloop as (new & -> & _ & Hlen & Hids & Hall).
  simpl. split_and!; try done.
  { rewrite Hids. apply NoDup_fmap_2_strong; [|apply NoDup_seq].
    intros i j _ _ Hij. by apply (inj (String.app _)), (inj (String.app _)),
      (inj pretty) in Hij. }
  eapply Forall_impl; [exact Hall|].
  intros r (e & k & _ & He). simpl in He.
  apply transform_entity_emitted in He
    as (? & ? & ? & ? & ? & ? & _ & Hrest).
  simpl in Hrest. by destruct Hrest as (_ & _ & _ & _ & _ & ->).
Qed.

(** C5. The output is, page after page, the records of each page; the
    [mention_id]s of the records of one page are the document id
    followed by "." and the numbers 1, 2, ..., n in this order, where n
    is the number of records of the page, so that they are pairwise
    distinct; an entity that is skipped, for whatever reason, hands the
    counter on unchanged, and an entity that is emitted uses the counter
    and hands on its successor. *)
Theorem mention_ids_count_emitted_records
    umls_info semantic_info cui_to_groups corrected_code :
  (∀ pages rs,
     _transform_pages umls_info semantic_info cui_to_groups corrected_code
       pages = Ok rs →
     ∃ per_page,
       rs = concat per_page
       ∧ Forall2
           (λ page recs,
              mention_id <$> recs
              = (λ i, Page.document_id page +:+ "." +:+ pretty i)
                  <$> seq 1 (length recs)
              ∧ NoDup (mention_id <$> recs)
              ∧ Forall (λ r, context_doc_id r = Page.document_id page) recs
              ∧ length recs ≤ length (default [] (Page.entities page)))
           pages per_page)
  ∧ (∀ document_id txt entity rest k acc why,
       transform_entity umls_info semantic_info cui_to_groups corrected_code
         document_id txt k entity = Ok (Skipped why) →
       entity_loop umls_info semantic_info cui_to_groups corrected_code
         document_id txt (entity :: rest) k acc
       = entity_loop umls_info semantic_info cui_to_groups corrected_code
           document_id txt rest k acc)
  ∧ (∀ document_id txt entity rest k acc r,
       transform_entity umls_info semantic_info cui_to_groups corrected_code
         document_id txt k entity = Ok (Emitted r) →
       mention_id r = document_id +:+ "." +:+ pretty k
       ∧ entity_loop umls_info semantic_info cui_to_groups corrected_code
           document_id txt (entity :: rest) k acc
         = entity_loop umls_info semantic_info cui_to_groups corrected_code
             document_id txt rest (S k) (acc ++ [r])).
Proof.
  split_and!.
  - intros pages rs (per_page & Hall & ->)%transform_pages_concat.
    exists per_page. split; [done|].
    eapply Forall2_impl; [exact Hall|].
    intros page recs Hp. simpl in Hp. by apply transform_page_records in Hp.
  - intros document_id txt entity rest k acc why He. simpl. by rewrite He.
  - intros document_id txt entity rest k acc r He. simpl. rewrite He.
    split; [|done].
    apply transform_entity_emitted in He
      as (? & ? & ? & ? & ? & ? & _ & Hrest).
    simpl in Hrest. by destruct Hrest as (_ & _ & _ & _ & _ & ->).
Qed.

Lemma mention_ids_count_emitted_records_witness :
  ∃ per_page,
    [Sample.flu_record; Sample.fever_record; Sample.silent_record]
    = concat per_page
    ∧ Forall2
        (λ page recs,
           mention_id <$> recs
           = (λ i, Page.document_id page +:+ "." +:+ pretty i)
               <$> seq 1 (length recs)
           ∧ NoDup (mention_id <$> recs)
           ∧ Forall (λ r, context_doc_id r = Page.document_id page) recs
           ∧ length recs ≤ length (default [] (Page.entities page)))
        [Sample.page] per_page.
Proof.
  apply (proj1 (mention_ids_count_emitted_records Sample.umls_info
                  Sample.semantic_info Sample.cui_to_groups
                  (Some Sample.corrected_code)) [Sample.page]).
  vm_compute. reflexivity.
Defined.

(** ** The correction overlay *)





(** ** The document text and the context windows *)

Lemma list_comprehension_Ok {A B : Type} (f : A → result B) (l : list A)
    (ys : list B) :
  list_comprehension f l = Ok ys ↔ Forall2 (λ x y, f x = Ok y) l ys.
Proof.
  revert ys. induction l as [|x l IH]; intros ys; simpl.
  - split; [intros [= <-]; constructor | by intros ->%Forall2_nil_inv_l].
  - destruct (f x) as [y|] eqn:Hx; simpl.
    + destruct (list_comprehension f l) as [ys'|] eqn:Hl; simpl.
      * split.
        -- intros [= <-]. constructor; [done | by apply IH].
        -- intros (y' & ys'' & Hy & Hys & ->)%Forall2_cons_inv_l.
           rewrite Hx in Hy. injection Hy as <-.
           apply IH in Hys. by injection Hys as <-.
      * split; [done|].
        intros (y' & ys'' & _ & Hys & ->)%Forall2_cons_inv_l.
        by apply IH in Hys.
    + split; [done|].
      intros (y' & ys'' & Hy & _)%Forall2_cons_inv_l. by rewrite Hx in Hy.
Qed.

Lemma list_getitem_Ok {A : Type} (l : list A) (i : nat) (x : A) :
  list_getitem l i = Ok x ↔ l !! i = Some x.
Proof.
  unfold list_getitem. destruct (l !! i); split; intros [= ->]; done.
Qed.

(** The text of a page: the first fragment of each passage. *)
Lemma all_text_first_fragments (page : Page.t) (txt : string) :
  all_text page = Ok txt ↔
  ∃ frags,
    Forall2 (λ passage frag, Passage.text passage !! 0 = Some frag)
      (default [] (Page.passages page)) frags
    ∧ txt = PyStr.join " " frags.
Proof.
  unfold all_text. split.
  - destruct (list_comprehension _ _) as [frags|] eqn:Hl; simpl; [|done].
    intros [= <-]. exists frags. split; [|done].
    apply list_comprehension_Ok in Hl.
    eapply Forall2_impl; [exact Hl|]. intros p f. apply list_getitem_Ok.
  - intros (frags & Hall & ->).
    assert (list_comprehension
              (λ passage, list_getitem (Passage.text passage) 0)
              (default [] (Page.passages page)) = Ok frags) as ->; [|done].
    apply list_comprehension_Ok.
    eapply Forall2_impl; [exact Hall|]. intros p f. apply list_getitem_Ok.
Qed.






(** ** The terminology dictionary *)

Lemma group_by_agg_sort_elem (pl : polars) (df : list Umls.row)
    (r : Grouped.row) :
  r ∈ group_by_agg_sort pl df ↔
  ∃ k, k ∈ Umls.key <$> df
       ∧ r = Grouped.Row k.1.1 k.1.2 k.2 (unique pl (group_values df k)).
Proof.
  unfold group_by_agg_sort. rewrite (sort_Permutation pl), list_elem_of_fmap.
  split.
  - intros (k & -> & Hk). exists k. split; [|done].
    by apply (group_order_elem pl).
  - intros (k & Hk & ->). exists k. split; [done|].
    by apply (group_order_elem pl).
Qed.

Lemma group_by_agg_sort_keys (pl : polars) (df : list Umls.row) :
  Grouped.key <$> group_by_agg_sort pl df ≡ₚ first_seen (Umls.key <$> df).
Proof.
  unfold group_by_agg_sort. rewrite (sort_Permutation pl), <- list_fmap_compose.
  rewrite (list_fmap_ext _ id (group_order pl (Umls.key <$> df)))
    by (by intros i [[c t] g] _).
  rewrite list_fmap_id. apply NoDup_Permutation.
  - apply (group_order_NoDup pl).
  - apply Polars.first_seen_NoDup.
  - intros k. by rewrite (group_order_elem pl), Polars.first_seen_elem.
Qed.

Lemma with_description_reads (r : Grouped.row) :
  Described.description (with_description r)
  = Grouped.Title r +:+ " ( " +:+ Grouped.GROUP r +:+ " : "
      +:+ PyStr.join " ; " (Grouped.Entity r) +:+ " )".
Proof. simpl. by rewrite !append_assoc. Qed.

Lemma unique_first_seen (pl : polars) (l : list string) :
  unique pl l ≡ₚ first_seen l.
Proof.
  apply NoDup_Permutation.
  - apply (unique_NoDup pl).
  - apply Polars.first_seen_NoDup.
  - intros x. by rewrite (unique_elem pl), Polars.first_seen_elem.
Qed.

(** What the nested dict holds was written by some row. *)
Lemma nested_records_lookup_from (rows : list Described.row)
    (acc : gmap string (gmap string ConceptInfo)) g concepts c info :
  foldl (λ records row,
           <[Described.GROUP row :=
               <[Described.CUI row :=
                   {| title := Described.Title row;
                      description := Described.description row |}]>
                 (default ∅ (records !! Described.GROUP row))]> records)
        acc rows !! g = Some concepts →
  concepts !! c = Some info →
  (∃ m, acc !! g = Some m ∧ m !! c = Some info)
  ∨ (∃ row, row ∈ rows ∧ Described.GROUP row = g ∧ Described.CUI row = c
            ∧ info = {| title := Described.Title row;
                        description := Described.description row |}).
Proof.
  revert acc. induction rows as [|row rows IH]; intros acc Hg Hc; simpl in Hg.
  - left. eauto.
  - destruct (IH _ Hg Hc) as [(m & Hm & Hmc)|(row' & Hin & Hrow)].
    + destruct (decide (Described.GROUP row = g)) as [Heq|Hne].
      * rewrite Heq, lookup_insert_eq in Hm. injection Hm as <-.
        destruct (decide (Described.CUI row = c)) as [Heqc|Hnec].
        -- rewrite Heqc, lookup_insert_eq in Hmc. injection Hmc as <-.
           right. exists row. split; [by left | done].
        -- rewrite lookup_insert_ne in Hmc by done.
           left. destruct (acc !! g) as [m|]; simpl in Hmc; [eauto|].
           by rewrite lookup_empty in Hmc.
      * rewrite lookup_insert_ne in Hm by done. left. eauto.
    + right. exists row'. split; [by right | done].
Qed.

Lemma nested_records_lookup (rows : list Described.row) g concepts c info :
  nested_records rows !! g = Some concepts →
  concepts !! c = Some info →
  ∃ row, row ∈ rows ∧ Described.GROUP row = g ∧ Described.CUI row = c
         ∧ info = {| title := Described.Title row;
                     description := Described.description row |}.
Proof.
  intros Hg Hc.
  destruct (nested_records_lookup_from rows ∅ g concepts c info Hg Hc)
    as [(m & Hm & _)|H]; [|done].
  by rewrite lookup_empty in Hm.
Qed.

(** C7 (as the code has it). Whatever order the data-frame library
    chooses: the returned list has exactly one entry per (concept id,
    title, group) triple of the table; the description of an entry is
    its title, " ( ", its group, " : ", the labels the library's
    [unique] returns for the triple joined by " ; ", and " )", where
    those labels are the distinct labels of the triple, each once, in
    some order; every value of the nested dict is the title and the
    description of such an entry, under its group and concept id; and
    with a library whose [unique] keeps the order first encountered,
    the description is the one the specification describes. *)
Theorem dictionary_descriptions (pl : polars) (df : list Umls.row) :
  Dictionary.key <$> (prepare_dictionary_from_umls pl df).2
    ≡ₚ first_seen (Umls.key <$> df)
  ∧ (∀ e, e ∈ (prepare_dictionary_from_umls pl df).2 →
       let labels := unique pl (group_values df (Dictionary.key e)) in
       labels ≡ₚ first_seen (group_values df (Dictionary.key e))
       ∧ Dictionary.description e
         = Dictionary.title e +:+ " ( " +:+ Dictionary.type e +:+ " : "
             +:+ PyStr.join " ; " labels +:+ " )")
  ∧ (∀ g concepts c info,
       (prepare_dictionary_from_umls pl df).1 !! g = Some concepts →
       concepts !! c = Some info →
       ∃ e, e ∈ (prepare_dictionary_from_umls pl df).2
            ∧ Dictionary.type e = g ∧ Dictionary.cui e = c
            ∧ title info = Dictionary.title e
            ∧ description info = Dictionary.description e)
  ∧ ((∀ l, unique pl l = first_seen l) →
     ∀ e, e ∈ (prepare_dictionary_from_umls pl df).2 →
          Dictionary.description e = spec_description df (Dictionary.key e)).
Proof.
  assert (∀ e, e ∈ (prepare_dictionary_from_umls pl df).2 →
            Dictionary.description e
            = Dictionary.title e +:+ " ( " +:+ Dictionary.type e +:+ " : "
                +:+ PyStr.join " ; "
                      (unique pl (group_values df (Dictionary.key e)))
                +:+ " )") as Hdescr.
  { intros e. simpl. intros (d & -> & Hd)%list_elem_of_fmap.
    apply list_elem_of_fmap in Hd as (r & -> & Hr).
    apply group_by_agg_sort_elem in Hr as ([[c t] g] & _ & ->).
    unfold rename. cbn [Dictionary.description Dictionary.title Dictionary.type].
    rewrite with_description_reads. done. }
  split_and!.
  - simpl. rewrite <- !list_fmap_compose, <- (group_by_agg_sort_keys pl).
    rewrite (list_fmap_ext _ Grouped.key (group_by_agg_sort pl df)); [done|].
    by intros i [c t g labels] _.
  - intros e He labels. split; [apply unique_first_seen | by apply Hdescr].
  - intros g concepts c info Hg Hc. simpl in Hg.
    destruct (nested_records_lookup _ _ _ _ _ Hg Hc)
      as (row & Hrow & <- & <- & ->).
    exists (rename row). split; [|done].
    simpl. by apply list_elem_of_fmap_2.
  - intros Hstable e He. rewrite (Hdescr e He), Hstable. done.
Qed.

Lemma dictionary_descriptions_witness :
  Dictionary.description
    (Sample.flu_entry "Flu ( Disease : Viral ; Infectious )")
  = spec_description Sample.concept_table ("C1", "Flu", "Disease").
Proof.
  apply (proj2 (proj2 (proj2
           (dictionary_descriptions Polars.stable Sample.concept_table)))).
  - reflexivity.
  - vm_compute. left.
Defined.

(** C7 (as the specification words it) does not follow from the code:
    the function asks the library for the unique labels of a triple
    without asking it to keep their order.  With a library that returns
    them last encountered first, the table of the scenario of section 8
    gets the labels of "Flu" joined in the opposite order. *)
Lemma description_order_counterexample :
  (prepare_dictionary_from_umls Polars.reversing Sample.concept_table).2
  = [ Sample.flu_entry "Flu ( Disease : Infectious ; Viral )";
      Sample.fever_entry ]
  ∧ spec_description Sample.concept_table ("C1", "Flu", "Disease")
    = "Flu ( Disease : Viral ; Infectious )"
  ∧ ¬ (∀ (pl : polars) (df : list Umls.row) (e : Dictionary.entry),
         e ∈ (prepare_dictionary_from_umls pl df).2 →
         Dictionary.description e = spec_description df (Dictionary.key e)).
Proof.
  split; [vm_compute; reflexivity|]. split; [vm_compute; reflexivity|].
  intros Hspec.
  specialize (Hspec Polars.reversing Sample.concept_table
                (Sample.flu_entry "Flu ( Disease : Infectious ; Viral )")).
  assert (Sample.flu_entry "Flu ( Disease : Infectious ; Viral )"
          ∈ (prepare_dictionary_from_umls Polars.reversing
               Sample.concept_table).2) as Hin by (vm_compute; left).
  specialize (Hspec Hin). vm_compute in Hspec. discriminate.
Qed.

(** * Further properties of the code *)

(** ** The lookup tables of [_transform_pages] *)

(** A dict filled row after row holds, under a key, what the last row
    with that key wrote. *)
Lemma foldl_insert_lookup {A V : Type} (key : A → string) (value : A → V)
    (l : list A) (acc : gmap string V) (k : string) :
  foldl (λ d row, <[key row := value row]> d) acc l !! k
  = match last (filter (λ row, key row = k) l) with
    | Some row => Some (value row)
    | None => acc !! k
    end.
Proof.
  induction l as [|x l IH] using rev_ind; [done|].
  rewrite foldl_app, filter_app. simpl.
  destruct (decide (key x = k)) as [Heq|Hne].
  - rewrite filter_cons_True, filter_nil by done.
    rewrite last_snoc, Heq. apply lookup_insert_eq.
  - rewrite filter_cons_False, filter_nil, app_nil_r by done.
    rewrite lookup_insert_ne by done. apply IH.
Qed.

(** X1. In [cat_to_group] and [sem_to_group] a code is a key exactly
    when some row of [semantic_info] carries it, and it maps to the
    group of the last such row. *)
Theorem semantic_tables_last_row_wins (semantic_info : list SemanticInfo.row)
    (code : string) :
  cat_to_group semantic_info !! code
  = SemanticInfo.GROUP
      <$> last (filter (λ row, SemanticInfo.CATEGORY row = code) semantic_info)
  ∧ sem_to_group semantic_info !! code
    = SemanticInfo.GROUP
        <$> last (filter (λ row, SemanticInfo.SEM_CODE row = code)
                    semantic_info).
Proof.
  unfold cat_to_group, sem_to_group. rewrite !foldl_insert_lookup.
  split.
  - destruct (last _); [done | apply lookup_empty].
  - destruct (last _); [done | apply lookup_empty].
Qed.

(** ** Batches of pages *)

Lemma page_loop_frame umls_info semantic_info cui_to_groups corrected_code
    pages acc :
  page_loop umls_info semantic_info cui_to_groups corrected_code pages acc
  = (rs ←! page_loop umls_info semantic_info cui_to_groups corrected_code
             pages [];
     Ok (acc ++ rs)).
Proof.
  revert acc. induction pages as [|page pages IH]; intros acc; simpl.
  - by rewrite app_nil_r.
  - rewrite transform_page_frame.
    destruct (transform_page _ _ _ _ page []) as [recs|] eqn:Hp; simpl;
      [|done].
    rewrite (IH (acc ++ recs)), (IH recs).
    destruct (page_loop _ _ _ _ pages []) as [rs|]; simpl; [|done].
    by rewrite app_assoc.
Qed.

Lemma page_loop_app umls_info semantic_info cui_to_groups corrected_code
    pages1 pages2 acc :
  page_loop umls_info semantic_info cui_to_groups corrected_code
    (pages1 ++ pages2) acc
  = (acc' ←! page_loop umls_info semantic_info cui_to_groups corrected_code
               pages1 acc;
     page_loop umls_info semantic_info cui_to_groups corrected_code
       pages2 acc').
Proof.
  revert acc. induction pages1 as [|page pages1 IH]; intros acc; simpl;
    [done|].
  destruct (transform_page _ _ _ _ page acc) as [acc'|]; simpl; auto.
Qed.

(** X2. Pages are processed independently of one another: running
    [_transform_pages] on two lists of pages put end to end gives the
    records of the first list followed by those of the second, and
    raises what the first list raises, or else what the second raises.
    In particular the mention counter of a page does not depend on the
    pages before it. *)
Theorem transform_pages_app umls_info semantic_info cui_to_groups
    corrected_code pages1 pages2 :
  _transform_pages umls_info semantic_info cui_to_groups corrected_code
    (pages1 ++ pages2)
  = (rs1 ←! _transform_pages umls_info semantic_info cui_to_groups
              corrected_code pages1;
     rs2 ←! _transform_pages umls_info semantic_info cui_to_groups
              corrected_code pages2;
     Ok (rs1 ++ rs2)).
Proof.
  unfold _transform_pages. rewrite page_loop_app.
  destruct (page_loop _ _ _ _ pages1 []) as [rs1|]; simpl; [|done].
  apply page_loop_frame.
Qed.

(** ** When the call raises *)

Lemma transform_pages_Ok_all_text umls_info semantic_info cui_to_groups
    corrected_code pages rs page :
  _transform_pages umls_info semantic_info cui_to_groups corrected_code pages
  = Ok rs →
  page ∈ pages → ∃ txt, all_text page = Ok txt.
Proof.
  intros (per_page & Hall & _)%transform_pages_concat Hpage.
  apply list_elem_of_lookup in Hpage as [i Hi].
  destruct (Forall2_lookup_l _ _ _ _ _ Hall Hi) as (recs & _ & Hp).
  unfold transform_page in Hp.
  destruct (all_text page) as [txt|]; [eauto | done].
Qed.

(** X3. A passage whose list of text fragments is empty, anywhere in
    the input, makes the whole call raise [IndexError]: no record of any
    page is returned. *)
Theorem empty_passage_raises_IndexError umls_info semantic_info cui_to_groups
    corrected_code pages page passage :
  page ∈ pages →
  passage ∈ default [] (Page.passages page) →
  Passage.text passage = [] →
  _transform_pages umls_info semantic_info cui_to_groups corrected_code pages
  = Raise IndexError.
Proof.
  intros Hpage Hpassage Hempty.
  destruct (_transform_pages _ _ _ _ pages) as [rs|[]] eqn:Hrun; [| |done].
  - destruct (transform_pages_Ok_all_text _ _ _ _ _ _ _ Hrun Hpage)
      as [txt Htxt].
    apply all_text_first_fragments in Htxt as (frags & Hall & _).
    apply list_elem_of_lookup in Hpassage as [i Hi].
    destruct (Forall2_lookup_l _ _ _ _ _ Hall Hi) as (frag & _ & Hfrag).
    by rewrite Hempty in Hfrag.
  - by apply page_loop_no_KeyError in Hrun.
Qed.

Lemma empty_passage_raises_IndexError_witness :
  _transform_pages Sample.umls_info Sample.semantic_info Sample.cui_to_groups
    None [Sample.page; Page.mk "doc4" (Some [Passage.mk []]) None]
  = Raise IndexError.
Proof.
  apply (empty_passage_raises_IndexError _ _ _ _ _
           (Page.mk "doc4" (Some [Passage.mk []]) None) (Passage.mk [])).
  - right. left.
  - left.
  - reflexivity.
Defined.

Lemma transform_entity_total umls_info semantic_info cui_to_groups
    corrected_code document_id txt k entity :
  Forall (λ o, length o ≠ 1) (default [] (Entity.offsets entity)) →
  ∃ o, transform_entity umls_info semantic_info cui_to_groups corrected_code
         document_id txt k entity = Ok o.
Proof.
  intros Hoff. unfold transform_entity.
  destruct (Entity.normalized entity) as [[|n0 ns]|]; eauto.
  case_bool_decide; eauto.
  destruct (in_keys _ umls_info) eqn:Hg; simpl; eauto.
  apply in_keys_true in Hg as [concepts Hg].
  unfold dict_getitem. rewrite Hg. simpl.
  destruct (in_keys _ concepts) eqn:Hc; simpl; eauto.
  apply in_keys_true in Hc as [info Hc]. rewrite Hc. simpl.
  destruct (start_index_total (default [] (Entity.offsets entity)))
    as [start ->].
  destruct (end_index_total _ Hoff) as [stop ->]. simpl. eauto.
Qed.

Lemma entity_loop_total umls_info semantic_info cui_to_groups
    corrected_code document_id txt es k acc :
  Forall (λ e, Forall (λ o, length o ≠ 1) (default [] (Entity.offsets e))) es →
  ∃ st, entity_loop umls_info semantic_info cui_to_groups corrected_code
          document_id txt es k acc = Ok st.
Proof.
  intros Hall. revert k acc.
  induction Hall as [|e es He Hall IH]; intros k acc; simpl; [eauto|].
  destruct (transform_entity_total umls_info semantic_info cui_to_groups
              corrected_code document_id txt k e He) as [[why|r] ->]; simpl;
    apply IH.
Qed.

Lemma all_text_total (page : Page.t) :
  Forall (λ passage, Passage.text passage ≠ [])
    (default [] (Page.passages page)) →
  ∃ txt, all_text page = Ok txt.
Proof.
  intros Hall. eexists. apply all_text_first_fragments.
  exists ((λ passage, default "" (Passage.text passage !! 0))
            <$> default [] (Page.passages page)).
  split; [|done].
  induction Hall as [|p ps Hp Hall IH]; simpl; [constructor|].
  constructor; [|done]. by destruct (Passage.text p).
Qed.

(** X4. On well-formed input the call does not raise: when every
    passage has at least one text fragment and no offset of any entity
    is a one-element list, [_transform_pages] returns a list of
    records. *)
Theorem transform_pages_total umls_info semantic_info cui_to_groups
    corrected_code pages :
  Forall (λ page,
            Forall (λ passage, Passage.text passage ≠ [])
              (default [] (Page.passages page))
            ∧ Forall (λ e, Forall (λ o, length o ≠ 1)
                             (default [] (Entity.offsets e)))
                (default [] (Page.entities page))) pages →
  ∃ rs, _transform_pages umls_info semantic_info cui_to_groups corrected_code
          pages = Ok rs.
Proof.
  intros Hall. unfold _transform_pages. generalize (@nil MentionRecord).
  induction Hall as [|page pages [Hp He] Hall IH]; intros acc; simpl;
    [eauto|].
  unfold transform_page.
  destruct (all_text_total page Hp) as [txt ->]. simpl.
  destruct (entity_loop_total umls_info semantic_info cui_to_groups
              corrected_code (Page.document_id page) txt _ 1 acc He)
    as [st ->]. simpl. apply IH.
Qed.

Lemma transform_pages_total_witness :
  ∃ rs, _transform_pages Sample.umls_info Sample.semantic_info
          Sample.cui_to_groups None [Sample.page; Sample.backwards] = Ok rs.
Proof.
  apply transform_pages_total.
  repeat constructor; simpl; try discriminate; lia.
Defined.

(** ** What a record looks like *)

Lemma lstrip_idemp (s : string) : PyStr.lstrip (PyStr.lstrip s) = PyStr.lstrip s.
Proof.
  induction s as [|c s IH]; simpl; [done|].
  destruct (PyStr.isspace c) eqn:Hc; [done|]. simpl. by rewrite Hc.
Qed.

Lemma rstrip_idemp (s : string) : PyStr.rstrip (PyStr.rstrip s) = PyStr.rstrip s.
Proof.
  induction s as [|c s IH]; simpl; [done|].
  destruct (PyStr.rstrip s) as [|c' r] eqn:Hr.
  - destruct (PyStr.isspace c) eqn:Hc; simpl; [done|]. by rewrite Hc.
  - simpl in *. by rewrite IH.
Qed.

(** Dropping leading whitespace does not bring trailing whitespace
    back. *)
Lemma rstrip_lstrip_fixed (s : string) :
  PyStr.rstrip s = s → PyStr.rstrip (PyStr.lstrip s) = PyStr.lstrip s.
Proof.
  induction s as [|c s IH]; simpl; [done|].
  destruct (PyStr.isspace c) eqn:Hc.
  - destruct (PyStr.rstrip s) as [|c' r] eqn:Hr; [done|].
    intros [= Heq]. apply IH. by rewrite Heq.
  - simpl. by rewrite Hc.
Qed.

Lemma strip_fixed (s : string) :
  PyStr.lstrip (PyStr.strip s) = PyStr.strip s
  ∧ PyStr.rstrip (PyStr.strip s) = PyStr.strip s.
Proof.
  unfold PyStr.strip. split; [apply lstrip_idemp|].
  apply rstrip_lstrip_fixed, rstrip_idemp.
Qed.

Lemma lstrip_fixed_head (c : Ascii.ascii) (s : string) :
  PyStr.lstrip (String c s) = String c s → PyStr.isspace c = false.
Proof.
  simpl. destruct (PyStr.isspace c); [|done].
  intros Heq. apply (f_equal String.length) in Heq.
  pose proof (lstrip_split s) as (w & _ & Hs).
  apply (f_equal String.length) in Hs. rewrite length_append in Hs.
  simpl in Heq. lia.
Qed.

Lemma rstrip_fixed_last (s : string) (c : Ascii.ascii) :
  PyStr.rstrip (s +:+ String c EmptyString) = s +:+ String c EmptyString →
  PyStr.isspace c = false.
Proof.
  induction s as [|a s IH].
  - simpl. by destruct (PyStr.isspace c).
  - rewrite append_cons. simpl.
    destruct (PyStr.rstrip (s +:+ String c EmptyString)) as [|c' r] eqn:Hr.
    + destruct (PyStr.isspace a); [done|].
      intros [= Heq]. by destruct s.
    + intros [= Heq]. apply IH. by rewrite Heq.
Qed.

(** A stripped string neither begins nor ends with whitespace. *)
Lemma strip_ends (s : string) :
  (∀ c t, PyStr.strip s = String c t → PyStr.isspace c = false)
  ∧ (∀ t c, PyStr.strip s = t +:+ String c EmptyString →
            PyStr.isspace c = false).
Proof.
  destruct (strip_fixed s) as [Hl Hr]. split.
  - intros c t Heq. rewrite Heq in Hl. by eapply lstrip_fixed_head.
  - intros t c Heq. rewrite Heq in Hr. by eapply rstrip_fixed_last.
Qed.

Lemma strip_trimmed (s : string) : trimmed (PyStr.strip s).
Proof.
  destruct (strip_fixed s) as [Hl Hr]. destruct (strip_ends s) as [Hh Ht].
  split_and!; [|done|done].
  unfold PyStr.strip at 1. by rewrite Hr, Hl.
Qed.

(** X5. Every record of the output has a [mention], a [context_left]
    and a [context_right] without leading or trailing whitespace, a
    [type] other than "Unknown", and the document id of its page both in
    [context_doc_id] and as the prefix of [mention_id]. *)
Theorem emitted_record_shape umls_info semantic_info cui_to_groups
    corrected_code pages rs r :
  _transform_pages umls_info semantic_info cui_to_groups corrected_code pages
  = Ok rs →
  r ∈ rs →
  trimmed (mention r) ∧ trimmed (context_left r) ∧ trimmed (context_right r)
  ∧ type r ≠ "Unknown"
  ∧ ∃ page k,
      page ∈ pages
      ∧ context_doc_id r = Page.document_id page
      ∧ mention_id r = Page.document_id page +:+ "." +:+ pretty k
      ∧ 1 ≤ k ≤ length (default [] (Page.entities page)).
Proof.
  intros (per_page & Hall & ->)%transform_pages_concat Hr.
  apply list_elem_of_In, in_concat in Hr as (recs & Hrecs & Hr).
  apply list_elem_of_In in Hrecs, Hr.
  apply list_elem_of_lookup in Hrecs as [i Hi].
  destruct (Forall2_lookup_r _ _ _ _ _ Hall Hi) as (page & Hpage & Hp).
  unfold transform_page in Hp.
  destruct (all_text page) as [txt|]; simpl in Hp; [|done].
  destruct (entity_loop _ _ _ _ _ _ _ _ _) as [[k' new']|] eqn:Hloop;
    simpl in Hp; [|done].
  injection Hp as ->.
  apply entity_loop_appends in Hloop as (new & -> & _ & Hlen & Hids & Hnew).
  simpl in Hr. rewrite Forall_forall in Hnew.
  destruct (Hnew r Hr) as (e & k0 & _ & He).
  apply transform_entity_emitted in He
    as (n0 & ns & concepts & info & start & stop & _ & Hrest).
  cbv zeta in Hrest. destruct Hrest as (Hunk & _ & _ & _ & _ & Heq).
  apply list_elem_of_lookup in Hr as [j Hj].
  assert ((mention_id <$> new) !! j = Some (mention_id r)) as Hid
    by (by rewrite list_lookup_fmap, Hj).
  rewrite Hids, list_lookup_fmap in Hid.
  destruct (seq 1 (length new) !! j) as [k|] eqn:Hk; [|done].
  injection Hid as Hid. apply lookup_seq in Hk as [-> Hlt].
  split_and!.
  - rewrite Heq. apply strip_trimmed.
  - rewrite Heq. apply strip_trimmed.
  - rewrite Heq. apply strip_trimmed.
  - by rewrite Heq.
  - exists page, (1 + j). split_and!.
    + by eapply list_elem_of_lookup_2.
    + by rewrite Heq.
    + done.
    + lia.
    + lia.
Qed.

Lemma emitted_record_shape_witness :
  trimmed (context_right Sample.flu_record)
  ∧ type Sample.flu_record ≠ "Unknown".
Proof.
  destruct (emitted_record_shape Sample.umls_info Sample.semantic_info
              Sample.cui_to_groups (Some Sample.corrected_code) [Sample.page]
              [Sample.flu_record; Sample.fever_record; Sample.silent_record]
              Sample.flu_record) as (_ & _ & Hright & Htype & _).
  - vm_compute. reflexivity.
  - left.
  - split; [exact Hright | exact Htype].
Defined.

(** ** Order of the records *)

Lemma entity_loop_sublist umls_info semantic_info cui_to_groups
    corrected_code document_id txt es k acc k' acc' :
  entity_loop umls_info semantic_info cui_to_groups corrected_code
    document_id txt es k acc = Ok (k', acc') →
  ∃ emitting new,
    acc' = acc ++ new
    ∧ sublist emitting es
    ∧ Forall2 (λ e r, ∃ i,
                 transform_entity umls_info semantic_info cui_to_groups
                   corrected_code document_id txt i e = Ok (Emitted r))
        emitting new.
Proof.
  revert k acc. induction es as [|e es IH]; intros k acc; simpl.
  - intros [= <- <-]. exists [], []. rewrite app_nil_r.
    split_and!; [done | constructor | constructor].
  - destruct (transform_entity _ _ _ _ _ _ k e) as [[why|r]|err] eqn:He; simpl;
      [| |done].
    + intros (emitting & new & -> & Hsub & Hall)%IH.
      exists emitting, new. split_and!; [done | by constructor | done].
    + intros (emitting & new & -> & Hsub & Hall)%IH.
      exists (e :: emitting), (r :: new). rewrite <- app_assoc.
      split_and!; [done | by constructor |].
      constructor; [eauto | done].
Qed.

(** X6. The records of a page come in the order of its entities, at
    most one per entity: they are what the loop body builds for the
    entities of some sub-sequence of the entity list, taken in order;
    and the output lists the pages in their order. *)
Theorem records_follow_entity_order umls_info semantic_info cui_to_groups
    corrected_code pages rs :
  _transform_pages umls_info semantic_info cui_to_groups corrected_code pages
  = Ok rs →
  ∃ per_page,
    rs = concat per_page
    ∧ Forall2
        (λ page recs,
           ∃ txt emitting,
             all_text page = Ok txt
             ∧ sublist emitting (default [] (Page.entities page))
             ∧ Forall2
                 (λ e r, ∃ i,
                    transform_entity umls_info semantic_info cui_to_groups
                      corrected_code (Page.document_id page) txt i e
                    = Ok (Emitted r))
                 emitting recs)
        pages per_page.
Proof.
  intros (per_page & Hall & ->)%transform_pages_concat.
  exists per_page. split; [done|].
  eapply Forall2_impl; [exact Hall|]. intros page recs Hp. simpl in Hp.
  unfold transform_page in Hp.
  destruct (all_text page) as [txt|]; simpl in Hp; [|done].
  destruct (entity_loop _ _ _ _ _ _ _ _ _) as [[k' new']|] eqn:Hloop;
    simpl in Hp; [|done].
  injection Hp as ->.
  apply entity_loop_sublist in Hloop as (emitting & new & -> & Hsub & Hnew).
  exists txt, emitting. done.
Qed.

Lemma records_follow_entity_order_witness :
  ∃ per_page,
    [Sample.flu_record; Sample.fever_record; Sample.silent_record]
    = concat per_page
    ∧ Forall2
        (λ page recs,
           ∃ txt emitting,
             all_text page = Ok txt
             ∧ sublist emitting (default [] (Page.entities page))
             ∧ Forall2
                 (λ e r, ∃ i,
                    transform_entity Sample.umls_info Sample.semantic_info
                      Sample.cui_to_groups (Some Sample.corrected_code)
                      (Page.document_id page) txt i e = Ok (Emitted r))
                 emitting recs)
        [Sample.page] per_page.
Proof.
  apply records_follow_entity_order. vm_compute. reflexivity.
Defined.

(** ** A correction map that matches nothing *)

Lemma transform_entity_correction_unused umls_info semantic_info
    cui_to_groups d document_id txt k entity :
  (∀ n0 ns, Entity.normalized entity = Some (n0 :: ns) →
            d !! db_id n0 = None) →
  transform_entity umls_info semantic_info cui_to_groups (Some d)
    document_id txt k entity
  = transform_entity umls_info semantic_info cui_to_groups None
      document_id txt k entity.
Proof.
  intros Hd. unfold transform_entity.
  destruct (Entity.normalized entity) as [[|n0 ns]|]; try done.
  simpl. by rewrite (Hd n0 ns eq_refl).
Qed.

Lemma entity_loop_correction_unused umls_info semantic_info cui_to_groups d
    document_id txt es k acc :
  Forall (λ e, ∀ n0 ns, Entity.normalized e = Some (n0 :: ns) →
                        d !! db_id n0 = None) es →
  entity_loop umls_info semantic_info cui_to_groups (Some d)
    document_id txt es k acc
  = entity_loop umls_info semantic_info cui_to_groups None
      document_id txt es k acc.
Proof.
  intros Hall. revert k acc.
  induction Hall as [|e es He Hall IH]; intros k acc; simpl; [done|].
  rewrite transform_entity_correction_unused by done.
  destruct (transform_entity _ _ _ None _ _ _ e) as [[why|r]|err]; simpl; auto.
Qed.

(** X7. A correction map none of whose keys is the id of the first
    normalized reference of an entity changes nothing: the call gives
    what it gives without a correction map.  Ids in later normalized
    references are never looked up, and an empty map is such a map. *)
Theorem correction_without_matching_id umls_info semantic_info cui_to_groups
    d pages :
  Forall (λ page,
            Forall (λ e, ∀ n0 ns, Entity.normalized e = Some (n0 :: ns) →
                                  d !! db_id n0 = None)
              (default [] (Page.entities page))) pages →
  _transform_pages umls_info semantic_info cui_to_groups (Some d) pages
  = _transform_pages umls_info semantic_info cui_to_groups None pages.
Proof.
  intros Hall. unfold _transform_pages. generalize (@nil MentionRecord).
  induction Hall as [|page pages Hp Hall IH]; intros acc; simpl; [done|].
  unfold transform_page.
  destruct (all_text page) as [txt|]; simpl; [|done].
  rewrite entity_loop_correction_unused by done.
  destruct (entity_loop _ _ _ None _ _ _ _ _) as [st|]; simpl; auto.
Qed.

Lemma correction_without_matching_id_witness :
  _transform_pages Sample.umls_info Sample.semantic_info Sample.cui_to_groups
    (Some {[ "C2" := "C1" ]})
    [Page.mk "doc5" (Some [Passage.mk ["flu"]])
       (Some [Entity.mk (Some [Sample.ref "C1"; Sample.ref "C2"])
                (Some ["flu"]) (Some "DISO") (Some [[0; 3]%Z])])]
  = _transform_pages Sample.umls_info Sample.semantic_info
      Sample.cui_to_groups None
      [Page.mk "doc5" (Some [Passage.mk ["flu"]])
         (Some [Entity.mk (Some [Sample.ref "C1"; Sample.ref "C2"])
                  (Some ["flu"]) (Some "DISO") (Some [[0; 3]%Z])])].
Proof.
  apply correction_without_matching_id.
  repeat constructor. simpl. intros n0 ns [= <- <-]. reflexivity.
Defined.

(** ** Entities without offsets *)

Lemma slice_bound_0 (len : nat) : PyStr.slice_bound len 0 = 0.
Proof. unfold PyStr.slice_bound. simpl. lia. Qed.

(** X8. For an entity whose offset list is missing or empty, both ends
    of the span default to 0: a record built for it has an empty
    [context_left] and the whole stripped text of the page as
    [context_right]. *)
Theorem missing_offsets_windows umls_info semantic_info cui_to_groups
    corrected_code document_id txt k entity r :
  Entity.offsets entity = None ∨ Entity.offsets entity = Some [] →
  transform_entity umls_info semantic_info cui_to_groups corrected_code
    document_id txt k entity = Ok (Emitted r) →
  context_left r = "" ∧ context_right r = PyStr.strip txt.
Proof.
  intros Hoff
    (n0 & ns & concepts & info & start & stop & _ & Hrest)
    %transform_entity_emitted.
  cbv zeta in Hrest. destruct Hrest as (_ & _ & _ & Hs & He & ->).
  assert (default [] (Entity.offsets entity) = []) as Hnil
    by (by destruct Hoff as [-> | ->]).
  rewrite Hnil in Hs, He. injection Hs as <-. injection He as <-.
  cbn [context_left context_right].
  unfold PyStr.slice_to, PyStr.slice_from. rewrite slice_bound_0. done.
Qed.

Lemma missing_offsets_windows_witness :
  context_left Sample.silent_record = ""
  ∧ context_right Sample.silent_record
    = PyStr.strip "Patient has flu and  fever ".
Proof.
  apply (missing_offsets_windows Sample.umls_info Sample.semantic_info
           Sample.cui_to_groups (Some Sample.corrected_code) "doc1"
           "Patient has flu and  fever " 3 Sample.silent).
  - left. reflexivity.
  - vm_compute. reflexivity.
Defined.

(** ** The dictionary artifacts *)

#[local] Instance sort_key_le_trans : Transitive sort_key_le.
Proof.
  intros a b c [Hab Hab'] [Hbc Hbc']. split.
  - by etrans.
  - intros Hac.
    assert (Grouped.GROUP a = Grouped.GROUP b) as Heq.
    { apply (anti_symm String.le); [done|]. by rewrite Hac. }
    etrans; [by apply Hab'|]. apply Hbc'. by rewrite <- Heq.
Qed.

(** X9. The list [prepare_dictionary_from_umls] returns is ordered by
    group and, within a group, by concept id: every entry is below
    every later entry in that order. *)
Theorem dictionary_is_sorted (pl : polars) (df : list Umls.row) :
  StronglySorted entry_le (prepare_dictionary_from_umls pl df).2.
Proof.
  simpl. rewrite <- list_fmap_compose.
  apply (StronglySorted_fmap _ sort_key_le); [by intros [] []|].
  apply Sorted_StronglySorted; [apply _|].
  unfold group_by_agg_sort. apply sort_Sorted.
Qed.

Lemma dictionary_entry_inv (pl : polars) (df : list Umls.row)
    (e : Dictionary.entry) :
  e ∈ (prepare_dictionary_from_umls pl df).2 →
  ∃ row, row ∈ df
         ∧ Dictionary.cui e = Umls.CUI row
         ∧ Dictionary.title e = Umls.Title row
         ∧ Dictionary.type e = Umls.GROUP row
         ∧ Dictionary.description e
           = Umls.Title row +:+ " ( " +:+ Umls.GROUP row +:+ " : "
               +:+ PyStr.join " ; " (unique pl (group_values df (Umls.key row)))
               +:+ " )".
Proof.
  simpl. intros (d & -> & Hd)%list_elem_of_fmap.
  apply list_elem_of_fmap in Hd as (r & -> & Hr).
  apply group_by_agg_sort_elem in Hr as (k & Hk & ->).
  apply list_elem_of_fmap in Hk as (row & -> & Hrow).
  exists row. split; [done|].
  unfold rename.
  cbn [Dictionary.cui Dictionary.title Dictionary.type Dictionary.description].
  rewrite with_description_reads. done.
Qed.

(** What a row wrote into the nested dict stays reachable under its
    group and concept id. *)
Lemma nested_records_complete (rows : list Described.row)
    (row : Described.row) :
  row ∈ rows →
  ∃ concepts info,
    nested_records rows !! Described.GROUP row = Some concepts
    ∧ concepts !! Described.CUI row = Some info.
Proof.
  unfold nested_records.
  induction rows as [|x rows IH] using rev_ind; [by intros ?%not_elem_of_nil|].
  rewrite foldl_app. simpl. intros [Hin | ->%list_elem_of_singleton]%elem_of_app.
  - destruct (IH Hin) as (concepts & info & Hg & Hc).
    destruct (decide (Described.GROUP x = Described.GROUP row)) as [Heq|Hne].
    + rewrite Heq, lookup_insert_eq, Hg. simpl.
      destruct (decide (Described.CUI x = Described.CUI row)) as [Heqc|Hnec].
      * eexists _, _. split; [done|]. rewrite Heqc. apply lookup_insert_eq.
      * eexists _, info. split; [done|]. by rewrite lookup_insert_ne.
    + rewrite lookup_insert_ne by done. eauto.
  - rewrite lookup_insert_eq. eexists _, _. split; [done|].
    apply lookup_insert_eq.
Qed.

(** X10. Every row of the concept table can be looked up in the nested
    dict under its group and its concept id, and what is found there is
    the title and the description of an entry of the returned list with
    that group and that concept id.  When the rows of the table with
    this group and this concept id all carry the same title, it is that
    title and the description built for it. *)
Theorem nested_dict_covers_table (pl : polars) (df : list Umls.row)
    (row : Umls.row) :
  row ∈ df →
  ∃ concepts info,
    (prepare_dictionary_from_umls pl df).1 !! Umls.GROUP row = Some concepts
    ∧ concepts !! Umls.CUI row = Some info
    ∧ (∃ e, e ∈ (prepare_dictionary_from_umls pl df).2
            ∧ Dictionary.type e = Umls.GROUP row
            ∧ Dictionary.cui e = Umls.CUI row
            ∧ title info = Dictionary.title e
            ∧ description info = Dictionary.description e)
    ∧ ((∀ row', row' ∈ df → Umls.CUI row' = Umls.CUI row →
                Umls.GROUP row' = Umls.GROUP row →
                Umls.Title row' = Umls.Title row) →
       title info = Umls.Title row
       ∧ description info
         = Umls.Title row +:+ " ( " +:+ Umls.GROUP row +:+ " : "
             +:+ PyStr.join " ; " (unique pl (group_values df (Umls.key row)))
             +:+ " )").
Proof.
  intros Hrow.
  assert (with_description
            (Grouped.Row (Umls.CUI row) (Umls.Title row) (Umls.GROUP row)
               (unique pl (group_values df (Umls.key row))))
          ∈ with_description <$> group_by_agg_sort pl df) as Hin.
  { apply list_elem_of_fmap_2, group_by_agg_sort_elem.
    exists (Umls.key row). split; [by apply list_elem_of_fmap_2 | done]. }
  apply nested_records_complete in Hin as (concepts & info & Hg & Hc).
  simpl in Hg, Hc. exists concepts, info. split_and!; [done | done | |].
  - destruct (nested_records_lookup _ _ _ _ _ Hg Hc)
      as (d & Hd & Hdg & Hdc & ->).
    exists (rename d). split_and!; try done.
    simpl. by apply list_elem_of_fmap_2.
  - intros Hfd.
    destruct (nested_records_lookup _ _ _ _ _ Hg Hc)
      as (d & Hd & Hdg & Hdc & ->).
    assert (rename d ∈ (prepare_dictionary_from_umls pl df).2) as He
      by (simpl; by apply list_elem_of_fmap_2).
    apply dictionary_entry_inv in He
      as (row' & Hrow' & Hcui & Htitle & Htype & Hdescr).
    simpl in Hcui, Htitle, Htype, Hdescr.
    assert (Umls.Title row' = Umls.Title row) as Ht.
    { apply Hfd; [done | by rewrite <- Hcui | by rewrite <- Htype]. }
    assert (Umls.key row' = Umls.key row) as Hk.
    { unfold Umls.key. by rewrite Ht, <- Hcui, <- Htype, Hdc, Hdg. }
    simpl. rewrite Htitle, Hdescr, Hk, Ht.
    by rewrite <- Htype, Hdg.
Qed.

Lemma nested_dict_covers_table_witness :
  ∃ concepts info,
    (prepare_dictionary_from_umls Polars.stable Sample.concept_table).1
      !! "Symptom" = Some concepts
    ∧ concepts !! "C2" = Some info.
Proof.
  destruct (nested_dict_covers_table Polars.stable Sample.concept_table
              (Umls.Row "C2" "Fever" "Symptom" "Sign"))
    as (concepts & info & Hg & Hc & _).
  - right. left.
  - exists concepts, info. split; [exact Hg | exact Hc].
Defined.

(** ** The concept-group index *)

Lemma cui_group_values_elem (df : list Umls.row) (cui g : string) :
  g ∈ cui_group_values df cui ↔
  ∃ row, row ∈ df ∧ Umls.CUI row = cui ∧ Umls.GROUP row = g.
Proof.
  unfold cui_group_values. rewrite list_elem_of_fmap. split.
  - intros (row & -> & [Hc Hrow]%list_elem_of_filter). eauto.
  - intros (row & Hrow & Hc & <-). exists row. split; [done|].
    by apply list_elem_of_filter.
Qed.

Lemma build_cui_to_groups_lookup (pl : polars) (gr : cui_grouping)
    (df : list Umls.row) (cui : string) :
  build_cui_to_groups pl gr df !! cui
  = if bool_decide (cui ∈ Umls.CUI <$> df)
    then Some (unique pl (cui_group_values df cui))
    else None.
Proof.
  unfold build_cui_to_groups.
  rewrite (foldl_insert_lookup fst snd).
  destruct (last _) as [[c gs]|] eqn:Hlast.
  - apply last_Some_elem_of, list_elem_of_filter in Hlast as [Hc Hin].
    simpl in Hc. subst c.
    apply list_elem_of_fmap in Hin as (c & [= -> ->] & Hin).
    apply (proj1 (cui_order_elem gr _ _)) in Hin.
    by rewrite bool_decide_eq_true_2.
  - rewrite lookup_empty. apply last_None in Hlast.
    case_bool_decide as Hin; [|done].
    apply (proj2 (cui_order_elem gr _ _)) in Hin.
    assert ((cui, unique pl (cui_group_values df cui))
            ∈ filter (λ row : string * list string, row.1 = cui)
                ((λ c, (c, unique pl (cui_group_values df c)))
                   <$> cui_order gr (Umls.CUI <$> df))) as Hmem.
    { apply list_elem_of_filter. split; [done|].
      by apply (list_elem_of_fmap_2 (λ c, (c, unique pl (cui_group_values df c)))). }
    rewrite Hlast in Hmem. by apply not_elem_of_nil in Hmem.
Qed.

(** X11. The concept-group index built from the concept table has an
    entry exactly for the concept ids of the table; the entry of an id
    is a non-empty list without repetition of the groups of the rows
    carrying that id, and of no other group. *)
Theorem cui_to_groups_lists_groups (pl : polars) (gr : cui_grouping)
    (df : list Umls.row) (cui : string) :
  (build_cui_to_groups pl gr df !! cui = None ↔ cui ∉ Umls.CUI <$> df)
  ∧ ∀ groups,
      build_cui_to_groups pl gr df !! cui = Some groups →
      groups ≠ []
      ∧ NoDup groups
      ∧ ∀ g, g ∈ groups ↔
             ∃ row, row ∈ df ∧ Umls.CUI row = cui ∧ Umls.GROUP row = g.
Proof.
  rewrite build_cui_to_groups_lookup. split.
  - case_bool_decide; split; done.
  - intros groups. case_bool_decide as Hin; [|done]. intros [= <-].
    assert (∀ g, g ∈ unique pl (cui_group_values df cui) ↔
                 ∃ row, row ∈ df ∧ Umls.CUI row = cui ∧ Umls.GROUP row = g)
      as Helem.
    { intros g. by rewrite (unique_elem pl), cui_group_values_elem. }
    split_and!; [|apply (unique_NoDup pl)|done].
    apply list_elem_of_fmap in Hin as (row & -> & Hrow).
    intros Hnil.
    assert (Umls.GROUP row ∈ unique pl (cui_group_values df (Umls.CUI row)))
      as Hmem by (apply Helem; eauto).
    rewrite Hnil in Hmem. by apply not_elem_of_nil in Hmem.
Qed.

Lemma cui_to_groups_lists_groups_witness :
  ∃ groups,
    build_cui_to_groups Polars.stable stable_cui_grouping
      Sample.concept_table !! "C1" = Some groups
    ∧ groups ≠ [] ∧ NoDup groups.
Proof.
  exists [ "Disease" ].
  destruct (proj2 (cui_to_groups_lists_groups Polars.stable
                     stable_cui_grouping Sample.concept_table "C1")
              [ "Disease" ]) as (Hne & Hnd & _).
  - vm_compute. reflexivity.
  - split_and!; [vm_compute; reflexivity | exact Hne | exact Hnd].
Defined.

(** ** Tables built from one concept table *)

Lemma determine_group_in_groups (c2g s2g : gmap string string)
    (groups : list string) (raw : option string) :
  groups ≠ [] → determine_group c2g s2g groups raw ∈ groups.
Proof.
  intros Hne. unfold determine_group.
  destruct groups as [|g0 [|g1 rest]]; [done | by left |].
  case_bool_decide; [done | by left].
Qed.

Lemma prepared_lookup_row (pl : polars) (df : list Umls.row) (row : Umls.row) :
  row ∈ df →
  ∃ concepts info,
    (prepare_dictionary_from_umls pl df).1 !! Umls.GROUP row = Some concepts
    ∧ concepts !! Umls.CUI row = Some info.
Proof.
  intros Hrow.
  assert (with_description
            (Grouped.Row (Umls.CUI row) (Umls.Title row) (Umls.GROUP row)
               (unique pl (group_values df (Umls.key row))))
          ∈ with_description <$> group_by_agg_sort pl df) as Hin.
  { apply list_elem_of_fmap_2, group_by_agg_sort_elem.
    exists (Umls.key row). split; [by apply list_elem_of_fmap_2 | done]. }
  by apply nested_records_complete in Hin.
Qed.

(** X12. When [umls_info] is the nested dict built by
    [prepare_dictionary_from_umls] and [cui_to_groups] the index built
    by [process_bigbio_dataset], both from the same concept table, then
    for every entity whose (corrected) concept id occurs in the table:
    the resolved group is one of the candidate groups of the id, the
    nested dict has an entry for the id under that group, the entity can
    only be skipped because the resolved group is named "Unknown", and
    otherwise, if none of its offsets is a one-element list, a record is
    built for it. *)
Theorem indexed_concept_is_emitted (pl pl' : polars) (gr : cui_grouping)
    (df : list Umls.row) semantic_info corrected_code entity cui :
  let umls_info := (prepare_dictionary_from_umls pl df).1 in
  let cui_to_groups := build_cui_to_groups pl' gr df in
  let group :=
    determine_group (cat_to_group semantic_info) (sem_to_group semantic_info)
      (candidate_groups cui_to_groups cui) (Entity.type entity) in
  entity_cui corrected_code entity = Some cui →
  cui ∈ Umls.CUI <$> df →
  group ∈ candidate_groups cui_to_groups cui
  ∧ (∃ concepts info,
       umls_info !! group = Some concepts ∧ concepts !! cui = Some info)
  ∧ (∀ document_id txt k why,
       transform_entity umls_info semantic_info cui_to_groups corrected_code
         document_id txt k entity = Ok (Skipped why) →
       why = UnknownGroup ∧ group = "Unknown")
  ∧ (group ≠ "Unknown" →
     Forall (λ o, length o ≠ 1) (default [] (Entity.offsets entity)) →
     ∀ document_id txt k,
       ∃ r, transform_entity umls_info semantic_info cui_to_groups
              corrected_code document_id txt k entity = Ok (Emitted r)
            ∧ type r = group ∧ label_id r = cui).
Proof.
  intros umls_info cui_to_groups group Hcui Hin.
  assert (candidate_groups cui_to_groups cui
          = unique pl' (cui_group_values df cui)) as Hgroups.
  { unfold candidate_groups, cui_to_groups.
    by rewrite build_cui_to_groups_lookup, bool_decide_eq_true_2. }
  assert (group ∈ candidate_groups cui_to_groups cui) as Hmem.
  { apply determine_group_in_groups. rewrite Hgroups. intros Hnil.
    apply list_elem_of_fmap in Hin as (row & -> & Hrow).
    assert (Umls.GROUP row ∈ unique pl' (cui_group_values df (Umls.CUI row)))
      as Hg by (apply (unique_elem pl'), cui_group_values_elem; eauto).
    rewrite Hnil in Hg. by apply not_elem_of_nil in Hg. }
  assert (∃ concepts info,
            umls_info !! group = Some concepts ∧ concepts !! cui = Some info)
    as (concepts & info & Hg & Hc).
  { pose proof Hmem as Hmem'. rewrite Hgroups in Hmem'.
    apply (unique_elem pl'), cui_group_values_elem in Hmem'
      as (row & Hrow & <- & Heq).
    rewrite <- Heq. by apply prepared_lookup_row. }
  unfold entity_cui in Hcui.
  destruct (Entity.normalized entity) as [[|n0 ns]|] eqn:Hn; try done.
  injection Hcui as Hcui.
  split_and!; [done | eauto | |].
  - intros document_id txt k why Hskip.
    destruct (decide (group = "Unknown")) as [Hunk|Hunk].
    + split; [|done]. revert Hskip. unfold transform_entity.
      rewrite Hn, Hcui. fold cui_to_groups.
      unfold candidate_groups in group. fold group.
      rewrite bool_decide_eq_true_2 by done. by intros [= <-].
    + exfalso. revert Hskip.
      apply (transform_entity_not_skipped umls_info semantic_info
               cui_to_groups corrected_code document_id txt k entity
               n0 ns concepts info why Hn);
        unfold candidate_groups in group; rewrite Hcui; done.
  - intros Hunk Hoff document_id txt k.
    destruct (start_index_total (default [] (Entity.offsets entity)))
      as [start Hs].
    destruct (end_index_total _ Hoff) as [stop He].
    eexists. split.
    + apply (transform_entity_emits umls_info semantic_info cui_to_groups
               corrected_code document_id txt k entity n0 ns concepts info
               start stop Hn);
        unfold candidate_groups in group; rewrite ?Hcui; done.
    + simpl. by rewrite Hcui.
Qed.

Lemma indexed_concept_is_emitted_witness :
  ∃ r, transform_entity
         (prepare_dictionary_from_umls Polars.stable Sample.concept_table).1
         Sample.semantic_info
         (build_cui_to_groups Polars.reversing stable_cui_grouping
            Sample.concept_table)
         (Some Sample.corrected_code) "doc1" "Patient has flu and  fever " 1
         Sample.fever = Ok (Emitted r)
       ∧ type r = "Symptom" ∧ label_id r = "C2".
Proof.
  apply (proj2 (proj2 (proj2
           (indexed_concept_is_emitted Polars.stable Polars.reversing
              stable_cui_grouping Sample.concept_table Sample.semantic_info
              (Some Sample.corrected_code) Sample.fever "C2"
              eq_refl ltac:(vm_compute; right; left))))).
  - vm_compute. discriminate.
  - simpl. repeat constructor. simpl. lia.
Defined.

(** ** The mention files *)

Lemma all_chars_append (p : Ascii.ascii → bool) (s t : string) :
  Json.all_chars p (s +:+ t) = Json.all_chars p s && Json.all_chars p t.
Proof.
  induction s as [|c s IH]; [done|].
  rewrite append_cons. simpl. rewrite IH. by destruct (p c).
Qed.

Lemma count_chars_append (p : Ascii.ascii → bool) (s t : string) :
  Json.count_chars p (s +:+ t) = Json.count_chars p s + Json.count_chars p t.
Proof.
  induction s as [|c s IH]; [done|].
  rewrite append_cons. simpl. rewrite IH. lia.
Qed.

Lemma printable_no_newline (s : string) :
  Json.all_chars Json.printable s = true →
  Json.count_chars Json.is_newline s = 0.
Proof.
  induction s as [|c s IH]; simpl; [done|].
  intros [Hc Hs]%andb_true_iff. rewrite (IH Hs).
  unfold Json.printable, Json.is_newline in *.
  destruct (N.eqb_spec (Ascii.N_of_ascii c) 10) as [Heq|]; [|done].
  rewrite Heq in Hc. done.
Qed.

(** Whatever the character, its escaped form is made of characters from
    space to tilde. *)
Lemma escape_char_printable (c : Ascii.ascii) :
  Json.all_chars Json.printable (Json.escape_char c) = true.
Proof. destruct c as [[] [] [] [] [] [] [] []]; vm_compute; reflexivity. Qed.

Lemma escape_printable (s : string) :
  Json.all_chars Json.printable (Json.escape s) = true.
Proof.
  induction s as [|c s IH]; simpl; [done|].
  by rewrite all_chars_append, escape_char_printable, IH.
Qed.

Lemma encode_string_printable (s : string) :
  Json.all_chars Json.printable (Json.encode_string s) = true.
Proof.
  unfold Json.encode_string.
  by rewrite !all_chars_append, escape_printable.
Qed.

Lemma member_printable (key value : string) :
  Json.all_chars Json.printable (Json.member key value) = true.
Proof.
  unfold Json.member.
  by rewrite !all_chars_append, !encode_string_printable.
Qed.

Lemma join_all_chars (p : Ascii.ascii → bool) (sep : string)
    (l : list string) :
  Json.all_chars p sep = true →
  Forall (λ s, Json.all_chars p s = true) l →
  Json.all_chars p (PyStr.join sep l) = true.
Proof.
  intros Hsep Hall. unfold PyStr.join.
  induction Hall as [|s l Hs Hall IH]; [done|].
  destruct l as [|s' l]; [done|].
  change (String.concat sep (s :: s' :: l))
    with (s +:+ sep +:+ String.concat sep (s' :: l)).
  by rewrite !all_chars_append, Hs, Hsep, IH.
Qed.

Lemma dumps_printable (m : MentionRecord) :
  Json.all_chars Json.printable (Json.dumps m) = true.
Proof.
  unfold Json.dumps. rewrite !all_chars_append, join_all_chars; [done|done|].
  repeat constructor; apply member_printable.
Qed.

Lemma dumps_braces (m : MentionRecord) :
  ∃ body, Json.dumps m = "{" +:+ body +:+ "}".
Proof. unfold Json.dumps. eauto. Qed.

Lemma join_cons_cons (sep s s' : string) (l : list string) :
  PyStr.join sep (s :: s' :: l) = s +:+ sep +:+ PyStr.join sep (s' :: l).
Proof. reflexivity. Qed.

(** X13. The content written for a split holds one line per record and
    nothing else: each record is dumped as an object between braces made
    of characters from space to tilde only, whatever characters its
    fields hold, so that the only newlines of the content are the
    separators, one less than there are records; without records the
    content is empty, and otherwise it ends with the closing brace of
    the last record, not with a newline. *)
Theorem jsonl_one_line_per_record (blink_mentions : list MentionRecord) :
  Forall (λ line, Json.all_chars Json.printable line = true
                  ∧ ∃ body, line = "{" +:+ body +:+ "}")
    (Json.dumps <$> blink_mentions)
  ∧ Json.count_chars Json.is_newline (jsonl blink_mentions)
    = length blink_mentions - 1
  ∧ (blink_mentions = [] → jsonl blink_mentions = "")
  ∧ (blink_mentions ≠ [] → ∃ s, jsonl blink_mentions = s +:+ "}").
Proof.
  split_and!.
  - apply Forall_fmap, Forall_forall. intros m _.
    split; [apply dumps_printable | apply dumps_braces].
  - unfold jsonl.
    induction blink_mentions as [|m ms IH]; [done|].
    destruct ms as [|m' ms].
    + apply printable_no_newline, dumps_printable.
    + rewrite fmap_cons, fmap_cons, join_cons_cons, !count_chars_append.
      rewrite fmap_cons in IH. rewrite IH.
      rewrite (printable_no_newline _ (dumps_printable m)).
      change (Json.count_chars Json.is_newline Json.newline) with 1.
      simpl. lia.
  - by intros ->.
  - intros Hne. unfold jsonl.
    induction blink_mentions as [|m ms IH]; [done|].
    destruct ms as [|m' ms].
    + destruct (dumps_braces m) as [body Hm].
      exists ("{" +:+ body).
      change (PyStr.join Json.newline (Json.dumps <$> [m]))
        with (Json.dumps m).
      by rewrite Hm, append_assoc.
    + destruct IH as [s Hs]; [done|].
      rewrite fmap_cons, fmap_cons, join_cons_cons.
      rewrite fmap_cons in Hs. rewrite Hs.
      exists (Json.dumps m +:+ Json.newline +:+ s).
      by rewrite !append_assoc.
Qed.

Lemma jsonl_one_line_per_record_witness :
  ∃ s, jsonl [Sample.flu_record; Sample.fever_record] = s +:+ "}".
Proof.
  apply (proj2 (proj2 (proj2
           (jsonl_one_line_per_record
              [Sample.flu_record; Sample.fever_record])))).
  discriminate.
Defined.

(** ** The loop over the splits *)

Section SplitLoop.

Variable umls_info : gmap string (gmap string ConceptInfo).
Variable semantic_info : list SemanticInfo.row.
Variable cui_to_groups : gmap string (list string).
Variable corrected_code : option (gmap string string).
Variable dataset : gmap string (list Page.t).

Local Abbreviation split_loop' :=
  (split_loop umls_info semantic_info cui_to_groups corrected_code dataset).
Local Abbreviation split_outcome' :=
  (split_outcome umls_info semantic_info cui_to_groups corrected_code dataset).

Lemma split_outcome_insert files files' split name content :
  split_file split ≠ name →
  split_outcome' (<[name := content]> files) files' split →
  split_outcome' files files' split.
Proof.
  unfold split_outcome. intros Hne.
  destruct (dataset !! split); [done|]. by rewrite lookup_insert_ne.
Qed.

Lemma split_loop_spec (splits : list string) (files : gmap string string) :
  NoDup (split_file <$> splits) →
  (∀ name, name ∉ split_file <$> splits →
           (split_loop' splits files).1 !! name = files !! name)
  ∧ ((split_loop' splits files).2 = Ok () →
     Forall (split_outcome' files (split_loop' splits files).1) splits)
  ∧ (∀ e, (split_loop' splits files).2 = Raise e →
       ∃ before split after pages,
         splits = before ++ split :: after
         ∧ dataset !! split = Some pages
         ∧ _transform_pages umls_info semantic_info cui_to_groups
             corrected_code pages = Raise e
         ∧ Forall (split_outcome' files (split_loop' splits files).1) before
         ∧ Forall (λ s, (split_loop' splits files).1 !! split_file s
                        = files !! split_file s) (split :: after)).
Proof.
  revert files. induction splits as [|split rest IH]; intros files Hnd.
  - simpl. split_and!; [done | by constructor | done].
  - rewrite fmap_cons in Hnd. apply NoDup_cons in Hnd as [Hfresh Hnd].
    assert (∀ s, s ∈ rest → split_file s ≠ split_file split) as Hdiff.
    { intros s Hs Heq. apply Hfresh. rewrite <- Heq.
      by apply list_elem_of_fmap_2. }
    simpl. destruct (dataset !! split) as [pages|] eqn:Hsplit.
    + destruct (_transform_pages _ _ _ _ pages) as [rs|err] eqn:Hrun.
      * destruct (IH (<[split_file split := jsonl rs]> files) Hnd)
          as (Hframe & Hok & Hfail).
        assert (split_outcome' files
                  (split_loop' rest (<[split_file split := jsonl rs]> files)).1
                  split) as Hwritten.
        { unfold split_outcome. rewrite Hsplit. exists rs.
          split; [done|]. rewrite Hframe by done. apply lookup_insert_eq. }
        split_and!.
        -- intros name [Hne Hname]%not_elem_of_cons.
           rewrite Hframe by done. by rewrite lookup_insert_ne.
        -- intros Hres. constructor; [done|].
           apply Forall_forall. intros s Hs.
           eapply split_outcome_insert; [by apply Hdiff|].
           specialize (Hok Hres). rewrite Forall_forall in Hok. by apply Hok.
        -- intros e Hres.
           destruct (Hfail e Hres)
             as (before & culprit & after & pages' & -> & Hc & Hraise
                 & Hbefore & Hafter).
           exists (split :: before), culprit, after, pages'.
           split_and!; try done.
           ++ constructor; [done|].
              apply Forall_forall. intros s Hs.
              eapply split_outcome_insert;
                [apply Hdiff, elem_of_app; by left|].
              rewrite Forall_forall in Hbefore. by apply Hbefore.
           ++ apply Forall_forall. intros s Hs.
              rewrite Forall_forall in Hafter. rewrite (Hafter s Hs).
              apply lookup_insert_ne. apply not_eq_sym, Hdiff, elem_of_app.
              by right.
      * split_and!; [done | done |].
        intros e [= <-]. exists [], split, rest, pages.
        split_and!; try done. by apply Forall_forall.
    + destruct (IH files Hnd) as (Hframe & Hok & Hfail).
      assert (split_outcome' files (split_loop' rest files).1 split)
        as Hkept.
      { unfold split_outcome. rewrite Hsplit. by apply Hframe. }
      split_and!.
      * intros name [Hne Hname]%not_elem_of_cons. by apply Hframe.
      * intros Hres. constructor; [done | by apply Hok].
      * intros e Hres.
        destruct (Hfail e Hres)
          as (before & culprit & after & pages' & -> & Hc & Hraise
              & Hbefore & Hafter).
        exists (split :: before), culprit, after, pages'.
        split_and!; try done. by constructor.
Qed.

Lemma split_loop_app (splits1 splits2 : list string)
    (files : gmap string string) :
  split_loop' (splits1 ++ splits2) files
  = match (split_loop' splits1 files).2 with
    | Ok _ => split_loop' splits2 (split_loop' splits1 files).1
    | Raise e => ((split_loop' splits1 files).1, Raise e)
    end.
Proof.
  revert files. induction splits1 as [|split rest IH]; intros files; simpl.
  - by destruct (split_loop' splits2 files).
  - destruct (dataset !! split) as [pages|]; [|apply IH].
    destruct (_transform_pages _ _ _ _ pages); [apply IH | done].
Qed.

Lemma split_loop_Ok (splits : list string) (files : gmap string string) :
  Forall (λ s, ∀ pages, dataset !! s = Some pages →
               ∃ rs, _transform_pages umls_info semantic_info cui_to_groups
                       corrected_code pages = Ok rs) splits →
  (split_loop' splits files).2 = Ok ().
Proof.
  intros Hall. revert files.
  induction Hall as [|split rest Hsplit Hall IH]; intros files; simpl; [done|].
  destruct (dataset !! split) as [pages|]; [|apply IH].
  destruct (Hsplit pages eq_refl) as [rs ->]. apply IH.
Qed.

End SplitLoop.

Lemma split_files_NoDup :
  NoDup (split_file <$> ["validation"; "test"; "train"]).
Proof. by apply (bool_decide_unpack _). Qed.

(** X14. [process_bigbio_dataset] touches no file other than
    [valid.jsonl], [test.jsonl] and [train.jsonl], whatever splits the
    dataset holds and whether or not it raises; and when it runs to its
    end, each of these three files holds the dumped records of its
    split ([validation] for [valid.jsonl]) if the dataset has that
    split, and is left as it was otherwise. *)
Theorem process_writes_present_splits (pl : polars) (gr : cui_grouping)
    dataset df umls_info semantic_info corrected_code files :
  let run :=
    process_bigbio_dataset pl gr dataset df umls_info semantic_info
      corrected_code files in
  (∀ name, name ∉ ["valid.jsonl"; "test.jsonl"; "train.jsonl"] →
           run.1 !! name = files !! name)
  ∧ (run.2 = Ok () →
     Forall (split_outcome umls_info semantic_info
               (build_cui_to_groups pl gr df) corrected_code dataset
               files run.1)
       ["validation"; "test"; "train"]).
Proof.
  intros run.
  destruct (split_loop_spec umls_info semantic_info
              (build_cui_to_groups pl gr df) corrected_code dataset
              ["validation"; "test"; "train"] files)
    as (Hframe & Hok & _).
  { apply split_files_NoDup. }
  split; [exact Hframe | exact Hok].
Qed.

Lemma process_writes_present_splits_witness :
  Forall (split_outcome
            (prepare_dictionary_from_umls Polars.stable Sample.concept_table).1
            Sample.semantic_info
            (build_cui_to_groups Polars.stable stable_cui_grouping
               Sample.concept_table)
            None Sample.dataset ∅
            (process_bigbio_dataset Polars.stable stable_cui_grouping
               Sample.dataset Sample.concept_table
               (prepare_dictionary_from_umls Polars.stable
                  Sample.concept_table).1
               Sample.semantic_info None ∅).1)
    ["validation"; "test"; "train"].
Proof.
  apply (proj2 (process_writes_present_splits Polars.stable
                  stable_cui_grouping Sample.dataset Sample.concept_table
                  (prepare_dictionary_from_umls Polars.stable
                     Sample.concept_table).1
                  Sample.semantic_info None ∅)).
  vm_compute. reflexivity.
Defined.

(** X15. When [_transform_pages] raises on the pages of one of the
    three splits, and did not on the splits before it in the order
    validation, test, train, [process_bigbio_dataset] stops with that
    exception: the files of the earlier splits have been written (or
    left alone for a split the dataset lacks), and the file of that
    split and those of the later splits are left as they were. *)
Theorem process_raises_midway (pl : polars) (gr : cui_grouping)
    dataset df umls_info semantic_info corrected_code files
    before split after pages e :
  ["validation"; "test"; "train"] = before ++ split :: after →
  Forall (λ s, ∀ pages', dataset !! s = Some pages' →
               ∃ rs, _transform_pages umls_info semantic_info
                       (build_cui_to_groups pl gr df) corrected_code pages'
                     = Ok rs) before →
  dataset !! split = Some pages →
  _transform_pages umls_info semantic_info (build_cui_to_groups pl gr df)
    corrected_code pages = Raise e →
  let run :=
    process_bigbio_dataset pl gr dataset df umls_info semantic_info
      corrected_code files in
  run.2 = Raise e
  ∧ Forall (split_outcome umls_info semantic_info
              (build_cui_to_groups pl gr df) corrected_code dataset
              files run.1) before
  ∧ Forall (λ s, run.1 !! split_file s = files !! split_file s)
      (split :: after).
Proof.
  intros Hsplits Hbefore Hsplit Hraise run.
  pose proof split_files_NoDup as Hnd.
  rewrite Hsplits, fmap_app in Hnd.
  apply NoDup_app in Hnd as (Hnd & Hdisjoint & _).
  destruct (split_loop_spec umls_info semantic_info
              (build_cui_to_groups pl gr df) corrected_code dataset
              before files Hnd) as (Hframe & Hok & _).
  pose proof (split_loop_Ok umls_info semantic_info
                (build_cui_to_groups pl gr df) corrected_code dataset
                before files Hbefore) as Hres.
  assert (run = ((split_loop umls_info semantic_info
                    (build_cui_to_groups pl gr df) corrected_code dataset
                    before files).1, Raise e)) as ->.
  { unfold run, process_bigbio_dataset.
    rewrite Hsplits, split_loop_app, Hres. simpl.
    by rewrite Hsplit, Hraise. }
  simpl. split_and!; [done | by apply Hok |].
  apply Forall_forall. intros s Hs. apply Hframe.
  intros Hin. apply (Hdisjoint _ Hin). by apply list_elem_of_fmap_2.
Qed.

Lemma process_raises_midway_witness :
  (process_bigbio_dataset Polars.stable stable_cui_grouping
     Sample.broken_dataset Sample.concept_table Sample.umls_info
     Sample.semantic_info None ∅).2 = Raise IndexError
  ∧ Forall (λ s,
              (process_bigbio_dataset Polars.stable stable_cui_grouping
                 Sample.broken_dataset Sample.concept_table Sample.umls_info
                 Sample.semantic_info None ∅).1 !! split_file s
              = (∅ : gmap string string) !! split_file s)
      ["test"; "train"].
Proof.
  destruct (process_raises_midway Polars.stable stable_cui_grouping
              Sample.broken_dataset Sample.concept_table Sample.umls_info
              Sample.semantic_info None ∅
              ["validation"] "test" ["train"]
              [Page.mk "doc4" (Some [Passage.mk []]) None] IndexError)
    as (Hres & _ & Hafter).
  - reflexivity.
  - constructor; [|constructor].
    intros pages' Hpages. vm_compute in Hpages. injection Hpages as <-.
    eexists. vm_compute. reflexivity.
  - reflexivity.
  - vm_compute. reflexivity.
  - split; [exact Hres | exact Hafter].
Defined.

(** ** Concept ids the index does not know *)

(** X16. For an entity whose (corrected) concept id has no candidate
    group in the index, the raw type alone decides: if it is missing or
    is no group name, category code or semantic-type code, the entity is
    skipped; and a record built for the entity carries as [type] the
    group the type rules give, which then holds the id in
    [umls_info]. *)
Theorem unindexed_concept_follows_type umls_info semantic_info cui_to_groups
    corrected_code entity cui :
  entity_cui corrected_code entity = Some cui →
  candidate_groups cui_to_groups cui = [] →
  let from_type :=
    type_group (cat_to_group semantic_info) (sem_to_group semantic_info)
      (Entity.type entity) in
  (from_type = "Unknown" →
   ∀ document_id txt k,
     transform_entity umls_info semantic_info cui_to_groups corrected_code
       document_id txt k entity = Ok (Skipped UnknownGroup))
  ∧ (∀ document_id txt k r,
       transform_entity umls_info semantic_info cui_to_groups corrected_code
         document_id txt k entity = Ok (Emitted r) →
       type r = from_type
       ∧ ∃ concepts info,
           umls_info !! from_type = Some concepts
           ∧ concepts !! cui = Some info).
Proof.
  intros Hcui Hnone from_type. unfold entity_cui in Hcui.
  destruct (Entity.normalized entity) as [[|n0 ns]|] eqn:Hn; try done.
  injection Hcui as Hcui. unfold candidate_groups in Hnone.
  split.
  - intros Hunk document_id txt k. unfold transform_entity.
    rewrite Hn, Hcui, Hnone. simpl. fold from_type.
    by rewrite bool_decide_eq_true_2.
  - intros document_id txt k r
      (n0' & ns' & concepts & info & start & stop & Hn' & Hrest)
      %transform_entity_emitted.
    rewrite Hn in Hn'. injection Hn' as <- <-.
    cbv zeta in Hrest. rewrite Hcui, Hnone in Hrest. simpl in Hrest.
    destruct Hrest as (_ & Hg & Hc & _ & _ & ->). simpl. eauto.
Qed.

Lemma unindexed_concept_follows_type_witness :
  transform_entity Sample.umls_info Sample.semantic_info Sample.cui_to_groups
    None "doc1" "Patient has flu and  fever " 2 Sample.fever
  = Ok (Skipped UnknownGroup).
Proof.
  apply (proj1 (unindexed_concept_follows_type Sample.umls_info
                  Sample.semantic_info Sample.cui_to_groups None Sample.fever
                  "X1" eq_refl eq_refl)).
  reflexivity.
Defined.

(** ** Nothing to process *)

(** X17. Empty inputs give empty outputs and no exception: an empty
    concept table yields an empty nested dict, an empty returned list
    and an empty concept-group index, whatever the library's ordering
    choices; and a dataset without any of the three splits leaves every
    file as it was. *)
Theorem empty_inputs (pl : polars) (gr : cui_grouping) :
  prepare_dictionary_from_umls pl [] = (∅, [])
  ∧ build_cui_to_groups pl gr [] = ∅
  ∧ ∀ dataset df umls_info semantic_info corrected_code files,
      dataset !! "validation" = None →
      dataset !! "test" = None →
      dataset !! "train" = None →
      process_bigbio_dataset pl gr dataset df umls_info semantic_info
        corrected_code files = (files, Ok ()).
Proof.
  assert (group_order pl [] = []) as Hkeys.
  { destruct (group_order pl []) as [|k ks] eqn:Hk; [done|].
    assert (k ∈ group_order pl []) as Hin by (rewrite Hk; left).
    apply (proj1 (group_order_elem pl _ _)) in Hin.
    by apply not_elem_of_nil in Hin. }
  assert (cui_order gr [] = []) as Hcuis.
  { destruct (cui_order gr []) as [|k ks] eqn:Hk; [done|].
    assert (k ∈ cui_order gr []) as Hin by (rewrite Hk; left).
    apply (proj1 (cui_order_elem gr _ _)) in Hin.
    by apply not_elem_of_nil in Hin. }
  split_and!.
  - unfold prepare_dictionary_from_umls, group_by_agg_sort. simpl.
    rewrite Hkeys. simpl.
    by rewrite (proj1 (Permutation_nil_r _) (sort_Permutation pl [])).
  - unfold build_cui_to_groups. simpl. by rewrite Hcuis.
  - intros dataset df umls_info semantic_info corrected_code files Hv Ht Htr.
    unfold process_bigbio_dataset. simpl. by rewrite Hv, Ht, Htr.
Qed.

Lemma empty_inputs_witness :
  process_bigbio_dataset Polars.stable stable_cui_grouping
    {[ "dev" := [Sample.page] ]} Sample.concept_table Sample.umls_info
    Sample.semantic_info None {[ "train.jsonl" := "old" ]}
  = ({[ "train.jsonl" := "old" ]}, Ok ()).
Proof.
  apply (proj2 (proj2 (empty_inputs Polars.stable stable_cui_grouping)));
    reflexivity.
Defined.
